(** * DX11Starter: camera, transform and per-frame orchestration

    A shallow embedding of [Camera.cpp] and [Game.cpp].

    - C++ [float] is IEEE 754 binary32, modelled with the Standard Library's
      [spec_float] at precision 24 and maximal exponent 128, rounding to
      nearest even.
    - C++ [int] is a 32-bit two's complement integer, modelled as [Z] with
      the wrap-around written out.
    - DirectXMath is an external library: the functions of it that the
      source calls are fields of the class [DirectXMath], and every theorem
      holds for any implementation of them.
    - The fixed-size arrays [shapes[5]] and [camera[3]] are lists; an index
      outside the list is an error ([None]). *)

From Stdlib Require Import ZArith List Bool Lia Ascii.
From Stdlib Require Import Floats.SpecFloat.
From stdpp Require Import base option list.

Open Scope Z_scope.

(* ================================================================== *)
(** ** binary32 arithmetic *)

Definition float : Type := spec_float.

Definition prec : Z := 24.
Definition emax : Z := 128.

Definition fadd : float -> float -> float := SFadd prec emax.
Definition fmul : float -> float -> float := SFmul prec emax.
Definition fdiv : float -> float -> float := SFdiv prec emax.
Definition fneg : float -> float := SFopp.
Definition fleb : float -> float -> bool := SFleb.
Definition fltb : float -> float -> bool := SFltb.
Definition feqb : float -> float -> bool := SFeqb.

(** [(float)n] for an integer [n]: the nearest binary32, ties to even. *)
Definition float_of_int (n : Z) : float := binary_normalize prec emax n 0 false.

Definition INT_MIN : Z := - 2 ^ 31.
Definition INT_MAX : Z := 2 ^ 31 - 1.

(** 32-bit two's complement wrap-around of an integer result. *)
Definition wrap_int (n : Z) : Z := (n + 2 ^ 31) mod 2 ^ 32 - 2 ^ 31.

(** [(int)x] for a float [x]: the fractional part is discarded (truncation
    toward zero).  When the truncated value does not fit an [int], or [x] is
    an infinity or a NaN, the conversion is undefined in C++; the x86
    conversion instruction the program is compiled to then yields
    [0x80000000], which is what the model returns. *)
Definition int_of_float (x : float) : Z :=
  match x with
  | S754_zero _ => 0
  | S754_finite s m e =>
      let mag := if 0 <=? e then Z.pos m * 2 ^ e else Z.pos m / 2 ^ (- e) in
      let n := if s then - mag else mag in
      if (INT_MIN <=? n) && (n <=? INT_MAX) then n else INT_MIN
  | S754_infinity _ | S754_nan => INT_MIN
  end.

(** A decimal literal [n / 10^k] with [n] and [10^k] below [2^24]: both are
    exact in binary32, and the correctly rounded quotient is the binary32
    nearest to the decimal, which is the value of the literal. *)
Definition decimal (n : Z) (k : Z) : float :=
  fdiv (float_of_int n) (float_of_int (10 ^ k)).

Definition f0 : float := S754_zero false.            (* 0.0f, also (float)0 *)
Definition f1 : float := float_of_int 1.             (* 1.0f *)
Definition f0_01 : float := decimal 1 2.             (* 0.01f *)
Definition f0_1 : float := decimal 1 1.              (* 0.1f *)
Definition f0_001 : float := decimal 1 3.            (* 0.001f *)
Definition f0_999 : float := decimal 999 3.          (* 0.999f *)
Definition f1_001 : float := decimal 1001 3.         (* 1.001f *)
Definition f1000 : float := float_of_int 1000.       (* 1000.0f, (float)1000 *)

(** DirectXMath: [constexpr float XM_PI = 3.141592654f], bits [0x40490FDB]. *)
Definition XM_PI : float := S754_finite false 13176795 (-22).

(** DirectXMath: [XMConvertToRadians(d) = d * (XM_PI / 180.0f)]. *)
Definition XMConvertToRadians (d : float) : float :=
  fmul d (fdiv XM_PI (float_of_int 180)).

(* ================================================================== *)
(** ** Vectors and matrices *)

Record XMFLOAT3 := mkFloat3 { f3x : float; f3y : float; f3z : float }.
Record XMFLOAT4 := mkFloat4 { f4x : float; f4y : float; f4z : float; f4w : float }.

(** [XMVECTOR]: four float lanes. *)
Definition XMVECTOR : Type := XMFLOAT4.

(** [XMVECTOR v = { a, b, c }]: the fourth lane is zero-initialised. *)
Definition XMVECTOR3 (a b c : float) : XMVECTOR := mkFloat4 a b c f0.

Record XMFLOAT4X4 := mkFloat4x4 { row0 : XMFLOAT4; row1 : XMFLOAT4; row2 : XMFLOAT4; row3 : XMFLOAT4 }.

(** The DirectXMath functions the program calls.  [XMVector3RotateEuler rot v]
    stands for the library's rotation of [v] by the orientation with
    pitch/yaw/roll [rot], which the absent [Transform.cpp] uses. *)
Class DirectXMath := {
  XMMatrixLookToLH : XMVECTOR -> XMVECTOR -> XMVECTOR -> XMFLOAT4X4;
  XMMatrixPerspectiveFovLH : float -> float -> float -> float -> XMFLOAT4X4;
  XMVector3RotateEuler : XMFLOAT3 -> XMFLOAT3 -> XMFLOAT3
}.

(* ================================================================== *)
(** ** Transform *)

Record Transform := mkTransform {
  position : XMFLOAT3;
  pitchYawRoll : XMFLOAT3;
  scale3 : XMFLOAT3
}.

Definition pitch (t : Transform) : float := f3x (pitchYawRoll t).
Definition yaw (t : Transform) : float := f3y (pitchYawRoll t).
Definition roll (t : Transform) : float := f3z (pitchYawRoll t).

Definition vadd (a b : XMFLOAT3) : XMFLOAT3 :=
  mkFloat3 (fadd (f3x a) (f3x b)) (fadd (f3y a) (f3y b)) (fadd (f3z a) (f3z b)).

Definition vmul (a b : XMFLOAT3) : XMFLOAT3 :=
  mkFloat3 (fmul (f3x a) (f3x b)) (fmul (f3y a) (f3y b)) (fmul (f3z a) (f3z b)).

Module TransformOps.
Section WithDirectXMath.
Context `{DX : DirectXMath}.

(** Modelled from the spec: [Transform.cpp] is absent.  A transform is
    created at the identity placement: position and rotation zero, scale
    one. *)
Definition new : Transform :=
  mkTransform (mkFloat3 f0 f0 f0) (mkFloat3 f0 f0 f0) (mkFloat3 f1 f1 f1).

(** Modelled from the spec: [Transform::SetPosition] is absent;
    it overwrites the absolute position. *)
Definition SetPosition (x y z : float) (t : Transform) : Transform :=
  mkTransform (mkFloat3 x y z) (pitchYawRoll t) (scale3 t).

(** Modelled from the spec: [Transform::MoveAbsolute] is absent;
    it adds a world-space delta to the position. *)
Definition MoveAbsolute (x y z : float) (t : Transform) : Transform :=
  mkTransform (vadd (position t) (mkFloat3 x y z)) (pitchYawRoll t) (scale3 t).

(** Modelled from the spec: [Transform::MoveRelative] is absent;
    it rotates the delta by the current orientation, then adds it to the
    position. *)
Definition MoveRelative (x y z : float) (t : Transform) : Transform :=
  mkTransform
    (vadd (position t) (XMVector3RotateEuler (pitchYawRoll t) (mkFloat3 x y z)))
    (pitchYawRoll t) (scale3 t).

(** Modelled from the spec: [Transform::Rotate] is absent;
    it accumulates the Euler-angle deltas, with no clamping. *)
Definition Rotate (p y r : float) (t : Transform) : Transform :=
  mkTransform (position t) (vadd (pitchYawRoll t) (mkFloat3 p y r)) (scale3 t).

(** Modelled from the spec: [Transform::Scale] is absent;
    it is multiplicative. *)
Definition Scale (x y z : float) (t : Transform) : Transform :=
  mkTransform (position t) (pitchYawRoll t) (vmul (scale3 t) (mkFloat3 x y z)).

(** Modelled from the spec: [Transform::GetPosition] is absent. *)
Definition GetPosition (t : Transform) : XMFLOAT3 := position t.

(** Modelled from the spec: [Transform::GetForward] is absent;
    the forward vector is derived from the current rotation: the +Z axis
    turned by the current orientation. *)
Definition GetForward (t : Transform) : XMFLOAT3 :=
  XMVector3RotateEuler (pitchYawRoll t) (mkFloat3 f0 f0 f1).
End WithDirectXMath.
End TransformOps.

(** The calls a client issues on a [Transform], as data: [Camera::Update]
    is a guarded sequence of such calls on the camera's own transform. *)
Inductive TransformCall :=
| CallMoveRelative (x y z : float)
| CallRotate (p y r : float).

Definition perform `{DX : DirectXMath} (t : Transform) (c : TransformCall) : Transform :=
  match c with
  | CallMoveRelative x y z => TransformOps.MoveRelative x y z t
  | CallRotate p y r => TransformOps.Rotate p y r t
  end.

Definition is_Rotate (c : TransformCall) : bool :=
  match c with CallRotate _ _ _ => true | _ => false end.

(* ================================================================== *)
(** ** Input *)

(** What the [Input] singleton answers during one frame.  [Input.h] is
    absent; the cursor deltas are [int]s. *)
Record Input := mkInput {
  KeyDown : Z -> bool;
  KeyPress : Z -> bool;
  MouseLeftDown : bool;
  GetMouseXDelta : Z;
  GetMouseYDelta : Z
}.

(** A character literal used as a virtual-key code. *)
Definition key (c : ascii) : Z := Z.of_N (N_of_ascii c).
Definition VK_ESCAPE : Z := 27.

(* ================================================================== *)
(** ** Camera ([Camera.cpp]) *)

Record Camera := mkCamera {
  transform : Transform;
  viewMatrix : XMFLOAT4X4;
  projectionMatrix : XMFLOAT4X4;
  moveSpeed : float;
  mouseLookSpeed : float;
  fov : float;
  aspectRatio : float;
  nearP : float;
  farP : float
}.

Definition set_transform (t : Transform) (c : Camera) : Camera :=
  mkCamera t (viewMatrix c) (projectionMatrix c) (moveSpeed c)
    (mouseLookSpeed c) (fov c) (aspectRatio c) (nearP c) (farP c).

Definition set_viewMatrix (m : XMFLOAT4X4) (c : Camera) : Camera :=
  mkCamera (transform c) m (projectionMatrix c) (moveSpeed c)
    (mouseLookSpeed c) (fov c) (aspectRatio c) (nearP c) (farP c).

Definition set_projectionMatrix (m : XMFLOAT4X4) (c : Camera) : Camera :=
  mkCamera (transform c) (viewMatrix c) m (moveSpeed c)
    (mouseLookSpeed c) (fov c) (aspectRatio c) (nearP c) (farP c).

(** The content of a matrix member before its first store. *)
Definition unset4x4 : XMFLOAT4X4 :=
  let r := mkFloat4 f0 f0 f0 f0 in mkFloat4x4 r r r r.

Module Camera.

(** The near and far clip distances written as literals in
    [UpdateProjectionMatrix]. *)
Definition projection_near : float := f0_01.   (* 0.01f *)
Definition projection_far : float := f1000.    (* 1000.0f *)

(** The guarded sequence of calls [Camera::Update] issues on its transform,
    in program order.  [moveSpeed], [mouseLookSpeed] and [dt] are not
    written by any of them.  [xDiff] and [yDiff] are [int] variables: the
    float product is converted to [int], and converted back to [float] in
    [yDiff * dt]. *)
Definition Update_transform_calls (input : Input) (dt : float) (c : Camera)
  : list TransformCall :=
  (if KeyDown input (key "W") then [CallMoveRelative f0 f0 (fmul (moveSpeed c) dt)] else []) ++
  (if KeyDown input (key "A") then [CallMoveRelative (fmul (fneg (moveSpeed c)) dt) f0 f0] else []) ++
  (if KeyDown input (key "S") then [CallMoveRelative f0 f0 (fmul (fneg (moveSpeed c)) dt)] else []) ++
  (if KeyDown input (key "D") then [CallMoveRelative (fmul (moveSpeed c) dt) f0 f0] else []) ++
  (if KeyDown input (key "Q") then [CallMoveRelative f0 (fmul (moveSpeed c) dt) f0] else []) ++
  (if KeyDown input (key "E") then [CallMoveRelative f0 (fmul (fneg (moveSpeed c)) dt) f0] else []) ++
  (if MouseLeftDown input then
     let xDiff := int_of_float (fmul (mouseLookSpeed c) (float_of_int (GetMouseXDelta input))) in
     let yDiff := int_of_float (fmul (mouseLookSpeed c) (float_of_int (GetMouseYDelta input))) in
     [CallRotate (fmul (float_of_int yDiff) dt) (fmul (float_of_int xDiff) dt) f0]
   else []).

Section WithDirectXMath.
Context `{DX : DirectXMath}.

Definition UpdateViewMatrix (c : Camera) : Camera :=
  let position :=
    XMVECTOR3 (f3x (TransformOps.GetPosition (transform c)))
              (f3y (TransformOps.GetPosition (transform c)))
              (f3z (TransformOps.GetPosition (transform c))) in
  let direction :=
    XMVECTOR3 (f3x (TransformOps.GetForward (transform c)))
              (f3y (TransformOps.GetForward (transform c)))
              (f3z (TransformOps.GetForward (transform c))) in
  let view := XMMatrixLookToLH position direction (XMVECTOR3 f0 f1 f0) in
  set_viewMatrix view c.

Definition UpdateProjectionMatrix (aspectRatio : float) (c : Camera) : Camera :=
  let proj :=
    XMMatrixPerspectiveFovLH (fov c) aspectRatio projection_near projection_far in
  set_projectionMatrix proj c.

(** The constructor: member initialisers, then the body. *)
Definition new (x y z moveSpeed mouseLookSpeed fov aspectRatio : float) : Camera :=
  let c :=
    {| transform := TransformOps.SetPosition x y z TransformOps.new;
       viewMatrix := unset4x4;
       projectionMatrix := unset4x4;
       moveSpeed := moveSpeed;
       mouseLookSpeed := mouseLookSpeed;
       fov := fov;
       aspectRatio := aspectRatio;
       nearP := f0_1;                 (* nearP = 0.1f *)
       farP := float_of_int 1000 |}   (* farP = 1000 *) in
  UpdateProjectionMatrix aspectRatio (UpdateViewMatrix c).

Definition Update (input : Input) (dt : float) (c : Camera) : Camera :=
  let t := fold_left perform (Update_transform_calls input dt c) (transform c) in
  UpdateViewMatrix (set_transform t c).

Definition GetTransform (c : Camera) : Transform := transform c.
Definition GetView (c : Camera) : XMFLOAT4X4 := viewMatrix c.
Definition GetProjection (c : Camera) : XMFLOAT4X4 := projectionMatrix c.
Definition GetFov (c : Camera) : float := fov c.
End WithDirectXMath.

End Camera.

(* ================================================================== *)
(** ** Scene state ([Game.cpp]) *)

(** [Mesh.h]: the members the scene code reads or writes. *)
Record Mesh := mkMesh { indexCount : Z; colorTint : XMFLOAT4 }.

(** Modelled from the spec: [Mesh::SetTint] is absent ([Mesh.h] declares it);
    it overwrites the mutable tint. *)
Definition SetTint (r g b a : float) (m : Mesh) : Mesh :=
  mkMesh (indexCount m) (mkFloat4 r g b a).

(** An entity: one transform of its own and one mesh. *)
Record GameEntity := mkEntity { entityTransform : Transform; entityMesh : Mesh }.

Definition on_transform (f : Transform -> Transform) (e : GameEntity) : GameEntity :=
  mkEntity (f (entityTransform e)) (entityMesh e).

Definition on_mesh (f : Mesh -> Mesh) (e : GameEntity) : GameEntity :=
  mkEntity (entityTransform e) (f (entityMesh e)).

(** What the debug overlay reports while [Game::Update] builds it: which
    headers are open, and for each widget whether the user changed its value
    this frame ([Some v]: the widget wrote [v] into the bound array and
    returned [true]). *)
Record Overlay := mkOverlay {
  ShapeHeader : nat -> bool;
  DragTranslation : nat -> option XMFLOAT3;
  DragRotation : nat -> option XMFLOAT3;
  DragScale : nat -> option XMFLOAT3;
  ColorEdit3 : nat -> option XMFLOAT3;
  CameraSettingsHeader : bool;
  ChangeCameraButton : bool
}.

(** The per-entity arrays bound to the overlay widgets. *)
Record Mirrors := mkMirrors {
  translation : list XMFLOAT3;
  rotation : list XMFLOAT3;
  scale : list XMFLOAT3;
  colorOffset : list XMFLOAT4
}.

(** The steps of a frame that the ordering claims speak about, logged in
    the order the statements run.  [StepEntityDraw i cam] is the call
    [shapes[i]->Draw(vsConstantBuffer, context, cam)]. *)
Inductive Step :=
| StepOverlay
| StepAnimate
| StepCameraUpdate (index : Z)
| StepClear
| StepEntityDraw (i : nat) (cam : Camera)
| StepOverlayRender
| StepPresent.

Record Game := mkGame {
  windowWidth : Z;
  windowHeight : Z;
  shapes : list GameEntity;
  camera : list Camera;
  activeCamera : Z;
  going : bool;
  mirrors : Mirrors;
  quit : bool;
  frameLog : list Step
}.

Definition set_shapes (s : list GameEntity) (g : Game) : Game :=
  mkGame (windowWidth g) (windowHeight g) s (camera g) (activeCamera g)
    (going g) (mirrors g) (quit g) (frameLog g).

Definition set_camera (c : list Camera) (g : Game) : Game :=
  mkGame (windowWidth g) (windowHeight g) (shapes g) c (activeCamera g)
    (going g) (mirrors g) (quit g) (frameLog g).

Definition set_activeCamera (a : Z) (g : Game) : Game :=
  mkGame (windowWidth g) (windowHeight g) (shapes g) (camera g) a
    (going g) (mirrors g) (quit g) (frameLog g).

Definition set_going (b : bool) (g : Game) : Game :=
  mkGame (windowWidth g) (windowHeight g) (shapes g) (camera g) (activeCamera g)
    b (mirrors g) (quit g) (frameLog g).

Definition set_mirrors (m : Mirrors) (g : Game) : Game :=
  mkGame (windowWidth g) (windowHeight g) (shapes g) (camera g) (activeCamera g)
    (going g) m (quit g) (frameLog g).

Definition set_quit (b : bool) (g : Game) : Game :=
  mkGame (windowWidth g) (windowHeight g) (shapes g) (camera g) (activeCamera g)
    (going g) (mirrors g) b (frameLog g).

Definition log (s : Step) (g : Game) : Game :=
  mkGame (windowWidth g) (windowHeight g) (shapes g) (camera g) (activeCamera g)
    (going g) (mirrors g) (quit g) (frameLog g ++ [s]).

(** [a[i]] for an [int] index: outside the array there is no element. *)
Definition array_at {A : Type} (a : list A) (i : Z) : option A :=
  if 0 <=? i then a !! Z.to_nat i else None.

(** [shapes[i]->GetTransform()->f(...)] and [shapes[i]->GetMesh()->f(...)]. *)
Definition shape_transform (i : nat) (f : Transform -> Transform) (g : Game) : option Game :=
  e ← shapes g !! i;
  Some (set_shapes (<[i := on_transform f e]> (shapes g)) g).

Definition shape_mesh (i : nat) (f : Mesh -> Mesh) (g : Game) : option Game :=
  e ← shapes g !! i;
  Some (set_shapes (<[i := on_mesh f e]> (shapes g)) g).

(** [for (int i = 0; i < n; i++) body(i)], with a body that may fail. *)
Definition for_each (n : nat) (body : nat -> Game -> option Game) (g : Game) : option Game :=
  fold_left (fun acc i => g' ← acc; body i g') (seq 0 n) (Some g).

(** [activeCamera = (activeCamera + 1) % 3] on [int]s: the sum wraps, and
    [%] is the remainder of the division that truncates toward zero. *)
Definition next_camera (v : Z) : Z := Z.rem (wrap_int (v + 1)) 3.

Module Game.
Section WithDirectXMath.
Context `{DX : DirectXMath}.

(** [(float)this->windowWidth / this->windowHeight] *)
Definition window_aspect (g : Game) : float :=
  fdiv (float_of_int (windowWidth g)) (float_of_int (windowHeight g)).

(** [CreateGeometry]: five entities, each with a mesh of its own; only the
    index counts matter here.  [tint0] is the tint the absent [Mesh]
    constructor gives a new mesh. *)
Definition CreateGeometry (tint0 : XMFLOAT4) (g : Game) : Game :=
  let entity n := mkEntity TransformOps.new (mkMesh n tint0) in
  set_shapes [entity 3; entity 6; entity 7; entity 3; entity 6] g.

Definition Init (tint0 : XMFLOAT4) (g : Game) : Game :=
  let g := CreateGeometry tint0 g in
  let f := float_of_int in
  set_camera
    [ Camera.new (f 10) f0 (fneg (f 10)) (f 5) (f 10) (fdiv XM_PI (f 2)) (window_aspect g);
      Camera.new f0 f0 (fneg (f 10)) (f 5) (f 10) (fdiv XM_PI (f 3)) (window_aspect g);
      Camera.new (fneg (f 10)) f0 (fneg (f 10)) (f 5) (f 10) (fdiv XM_PI (f 4)) (window_aspect g) ]
    g.

(** [OnResize]: the loop over the three cameras; the base-class resize of
    the back buffer that follows touches no member modelled here. *)
Definition OnResize (g : Game) : option Game :=
  for_each 3
    (fun i g =>
       c ← camera g !! i;
       Some (set_camera (<[i := Camera.UpdateProjectionMatrix (window_aspect g) c]> (camera g)) g))
    g.

(** The four widgets of one shape (lines 249-260).  A widget that reports
    a change has written the new value into its array, and the value is
    then read back from the array. *)
Definition edit_translation (ui : Overlay) (i : nat) (g : Game) : option Game :=
  match DragTranslation ui i with
  | Some v =>
      let g := set_mirrors (mkMirrors (<[i := v]> (translation (mirrors g)))
                 (rotation (mirrors g)) (scale (mirrors g)) (colorOffset (mirrors g))) g in
      v ← translation (mirrors g) !! i;
      shape_transform i (TransformOps.MoveAbsolute (f3x v) (f3y v) (f3z v)) g
  | None => Some g
  end.

Definition edit_rotation (ui : Overlay) (i : nat) (g : Game) : option Game :=
  match DragRotation ui i with
  | Some v =>
      let g := set_mirrors (mkMirrors (translation (mirrors g))
                 (<[i := v]> (rotation (mirrors g))) (scale (mirrors g)) (colorOffset (mirrors g))) g in
      v ← rotation (mirrors g) !! i;
      shape_transform i (TransformOps.Rotate (f3x v) (f3y v) (f3z v)) g
  | None => Some g
  end.

Definition edit_scale (ui : Overlay) (i : nat) (g : Game) : option Game :=
  match DragScale ui i with
  | Some v =>
      let g := set_mirrors (mkMirrors (translation (mirrors g))
                 (rotation (mirrors g)) (<[i := v]> (scale (mirrors g))) (colorOffset (mirrors g))) g in
      v ← scale (mirrors g) !! i;
      shape_transform i (TransformOps.Scale (f3x v) (f3y v) (f3z v)) g
  | None => Some g
  end.

(** [ColorEdit3] writes three channels of [colorOffset[i]]; [SetTint] then
    reads all four. *)
Definition edit_color (ui : Overlay) (i : nat) (g : Game) : option Game :=
  match ColorEdit3 ui i with
  | Some v =>
      old ← colorOffset (mirrors g) !! i;
      let c := mkFloat4 (f3x v) (f3y v) (f3z v) (f4w old) in
      let g := set_mirrors (mkMirrors (translation (mirrors g))
                 (rotation (mirrors g)) (scale (mirrors g)) (<[i := c]> (colorOffset (mirrors g)))) g in
      c ← colorOffset (mirrors g) !! i;
      shape_mesh i (SetTint (f4x c) (f4y c) (f4z c) (f4w c)) g
  | None => Some g
  end.

(** One iteration of the overlay loop over the shapes (lines 244-263). *)
Definition overlay_shape (ui : Overlay) (i : nat) (g : Game) : option Game :=
  if ShapeHeader ui i then
    g ← edit_translation ui i g;
    g ← edit_rotation ui i g;
    g ← edit_scale ui i g;
    edit_color ui i g
  else Some g.

(** The overlay block of [Update] (lines 221-279): the shape widgets, the
    camera read-out with its "Change Camera" button, and the 'C' key.  The
    read-out indexes [camera[activeCamera]]. *)
Definition overlay (ui : Overlay) (input : Input) (g : Game) : option Game :=
  g ← for_each 5 (overlay_shape ui) g;
  g ← (if CameraSettingsHeader ui then
         _ ← array_at (camera g) (activeCamera g);
         if ChangeCameraButton ui
         then Some (set_activeCamera (next_camera (activeCamera g)) g)
         else Some g
       else Some g);
  let g := if KeyPress input (key "C")
           then set_activeCamera (next_camera (activeCamera g)) g
           else g in
  Some (log StepOverlay g).

(** The scripted entity animation of [Update] (lines 281-308). *)
Definition animate (deltaTime : float) (g : Game) : option Game :=
  s0 ← shapes g !! 0%nat;
  let x := f3x (TransformOps.GetPosition (entityTransform s0)) in
  g ← (if fleb x f1 && going g then
         g ← shape_transform 0 (TransformOps.MoveAbsolute f0_001 f0_001 f0) g;
         shape_transform 4 (TransformOps.MoveAbsolute (fneg f0_001) (fneg f0_001) f0) g
       else if fltb f0 x then
         let g := set_going false g in
         g ← shape_transform 0 (TransformOps.MoveAbsolute (fneg f0_001) (fneg f0_001) f0) g;
         shape_transform 4 (TransformOps.MoveAbsolute f0_001 f0_001 f0) g
       else Some (set_going true g));
  g ← (if negb (going g) then
         shape_transform 2 (TransformOps.Scale f0_999 f0_999 f1) g
       else if going g then
         shape_transform 2 (TransformOps.Scale f1_001 f1_001 f1) g
       else Some g);
  let angle := fmul deltaTime (XMConvertToRadians (float_of_int 10)) in
  g ← shape_transform 3 (TransformOps.Rotate f0 f0 angle) g;
  g ← shape_transform 1 (TransformOps.Rotate f0 f0 angle) g;
  Some (log StepAnimate g).

(** [camera[activeCamera]->Update(deltaTime)] (line 310). *)
Definition update_active_camera (input : Input) (deltaTime : float) (g : Game) : option Game :=
  c ← array_at (camera g) (activeCamera g);
  let g := set_camera (<[Z.to_nat (activeCamera g) := Camera.Update input deltaTime c]> (camera g)) g in
  Some (log (StepCameraUpdate (activeCamera g)) g).

Definition Update (ui : Overlay) (input : Input) (deltaTime totalTime : float) (g : Game)
  : option Game :=
  g ← overlay ui input g;
  g ← animate deltaTime g;
  g ← update_active_camera input deltaTime g;
  Some (if KeyDown input VK_ESCAPE then set_quit true g else g).

(** [Draw]: clear, one draw per entity against [*camera[activeCamera]],
    then the overlay is rendered and the back buffer presented. *)
Definition Draw (deltaTime totalTime : float) (g : Game) : option Game :=
  let g := log StepClear g in
  g ← for_each 5
        (fun i g =>
           _ ← shapes g !! i;
           c ← array_at (camera g) (activeCamera g);
           Some (log (StepEntityDraw i c) g))
        g;
  let g := log StepOverlayRender g in
  Some (log StepPresent g).

(** Modelled from the spec: the frame loop of the absent [DXCore] runs
    [Update] to completion, then [Draw], once per frame. *)
Definition frame (ui : Overlay) (input : Input) (deltaTime totalTime : float) (g : Game)
  : option Game :=
  g ← Update ui input deltaTime totalTime g;
  Draw deltaTime totalTime g.
End WithDirectXMath.
End Game.

(* ================================================================== *)
(** ** Concrete inputs *)

(** An implementation of the library interface for running the model on
    explicit inputs: each matrix records the arguments it was built from,
    and the rotation leaves the +Z axis as forward. *)
Definition recordingDX : DirectXMath := {|
  XMMatrixLookToLH := fun p d u => mkFloat4x4 p d u (mkFloat4 f0 f0 f0 f1);
  XMMatrixPerspectiveFovLH := fun fv a n f =>
    mkFloat4x4 (mkFloat4 fv a n f) (mkFloat4 f0 f0 f0 f0) (mkFloat4 f0 f0 f0 f0) (mkFloat4 f0 f0 f0 f0);
  XMVector3RotateEuler := fun _ v => v
|}.

Definition idle_overlay : Overlay :=
  mkOverlay (fun _ => false) (fun _ => None) (fun _ => None) (fun _ => None) (fun _ => None)
    false false.

Definition idle_input : Input := mkInput (fun _ => false) (fun _ => false) false 0 0.

(** The left button is held and the cursor moved by one unit on each axis. *)
Definition look_input : Input := mkInput (fun _ => false) (fun _ => false) true 1 1.

Definition white : XMFLOAT4 := mkFloat4 f1 f1 f1 f1.

(** The scene of a 1280x720 window right after [Init], first camera active. *)
Definition started_game : Game :=
  let v := mkFloat3 f0 f0 f0 in
  let m := mkMirrors [v; v; v; v; v] [v; v; v; v; v] [v; v; v; v; v]
             [white; white; white; white; white] in
  @Game.Init recordingDX white (mkGame 1280 720 [] [] 0 false m false []).

(** A camera at the origin whose look sensitivity is one half. *)
Definition half_speed_camera : Camera :=
  @Camera.new recordingDX f0 f0 f0 f1 (fdiv f1 (float_of_int 2)) (fdiv XM_PI (float_of_int 2)) f1.

(* ================================================================== *)
(** ** Predicates the statements use *)

(** Two floats hold the same value: the same datum, or equal under [==]
    (which identifies the two zeros). *)
Definition same_float (a b : float) : Prop := a = b \/ feqb a b = true.

(** The rotation the look input would cause if the cursor delta were scaled
    by [mouseLookSpeed * deltaTime] as a float product. *)
Definition product_rotate (input : Input) (dt : float) (c : Camera) : TransformCall :=
  CallRotate
    (fmul (fmul (mouseLookSpeed c) (float_of_int (GetMouseYDelta input))) dt)
    (fmul (fmul (mouseLookSpeed c) (float_of_int (GetMouseXDelta input))) dt)
    f0.

Definition look_scaled_by_product (input : Input) (dt : float) (c : Camera) : Prop :=
  List.filter is_Rotate (Camera.Update_transform_calls input dt c)
  = if MouseLeftDown input then [product_rotate input dt c] else [].

(** The rotation [Update] issues: each product [mouseLookSpeed * delta] goes
    through an [int] variable before it is multiplied by [dt]. *)
Definition truncated_rotate (input : Input) (dt : float) (c : Camera) : TransformCall :=
  CallRotate
    (fmul (float_of_int (int_of_float
       (fmul (mouseLookSpeed c) (float_of_int (GetMouseYDelta input))))) dt)
    (fmul (float_of_int (int_of_float
       (fmul (mouseLookSpeed c) (float_of_int (GetMouseXDelta input))))) dt)
    f0.

Definition roll_arg_zero (c : TransformCall) : Prop :=
  match c with
  | CallMoveRelative _ _ _ => True
  | CallRotate _ _ r => r = f0
  end.

(** [b] is [a], or [a] is negative zero and [b] positive zero. *)
Definition roll_kept (a b : float) : Prop :=
  b = a \/ (a = S754_zero true /\ b = S754_zero false).

(** The arrays have their declared sizes. *)
Definition arrays_ok (g : Game) : Prop :=
  length (shapes g) = 5%nat /\
  length (translation (mirrors g)) = 5%nat /\
  length (rotation (mirrors g)) = 5%nat /\
  length (scale (mirrors g)) = 5%nat /\
  length (colorOffset (mirrors g)) = 5%nat.

(** The active-camera index is one of 0, 1, 2. *)
Definition index_ok (v : Z) : Prop := 0 <= v < 3.

Definition wf_game (g : Game) : Prop :=
  arrays_ok g /\ length (camera g) = 3%nat /\ index_ok (activeCamera g).

(** How many switch statements run in one [Update]: the overlay button
    (reachable when its header is open) and the 'C' key. *)
Definition switches (ui : Overlay) (input : Input) : nat :=
  ((if CameraSettingsHeader ui && ChangeCameraButton ui then 1 else 0)
   + (if KeyPress input (key "C") then 1 else 0))%nat.

Definition is_StepCameraUpdate (s : Step) : bool :=
  match s with StepCameraUpdate _ => true | _ => false end.

Definition is_StepAnimate (s : Step) : bool :=
  match s with StepAnimate => true | _ => false end.

Definition is_StepEntityDraw (s : Step) : bool :=
  match s with StepEntityDraw _ _ => true | _ => false end.

Definition is_StepPresent (s : Step) : bool :=
  match s with StepPresent => true | _ => false end.

(** Some step satisfying [p] is logged before some step satisfying [q]. *)
Fixpoint occurs_before (p q : Step -> bool) (l : list Step) : bool :=
  match l with
  | [] => false
  | s :: l' => (p s && existsb q l') || occurs_before p q l'
  end.

(** The phase order with the camera first: camera update, then entity
    animation, then entity draws, then present. *)
Definition camera_first_order (l : list Step) : bool :=
  occurs_before is_StepCameraUpdate is_StepAnimate l
  && occurs_before is_StepAnimate is_StepEntityDraw l
  && occurs_before is_StepEntityDraw is_StepPresent l.

(** The steps of one frame drawn with camera [cam] at index [a]. *)
Definition update_steps (a : Z) : list Step :=
  [StepOverlay; StepAnimate; StepCameraUpdate a].

Definition draw_steps (cam : Camera) : list Step :=
  [StepClear;
   StepEntityDraw 0 cam; StepEntityDraw 1 cam; StepEntityDraw 2 cam;
   StepEntityDraw 3 cam; StepEntityDraw 4 cam;
   StepOverlayRender; StepPresent].

(** The members no shape or mirror operation writes. *)
Definition rest (g : Game) : Z * Z * list Camera * Z * bool * list Step :=
  (windowWidth g, windowHeight g, camera g, activeCamera g, quit g, frameLog g).

(** The sizes of the shape array and of the mirror arrays. *)
Definition dims (g : Game) : nat * nat * nat * nat * nat :=
  (length (shapes g), length (translation (mirrors g)), length (rotation (mirrors g)),
   length (scale (mirrors g)), length (colorOffset (mirrors g))).

(** [g'] differs from [g] at most in the contents of the shapes, of the
    mirrors and in the animation direction. *)
Definition keeps (g g' : Game) : Prop := rest g' = rest g /\ dims g' = dims g.

(** What a phase from [g] to [g'] did to the members the claims speak
    about: the array sizes and the window size are kept, the cameras become
    [cams'], the active index [a'], and [steps] are logged. *)
Definition phase (g g' : Game) (a' : Z) (cams' : list Camera) (steps : list Step) : Prop :=
  dims g' = dims g /\
  windowWidth g' = windowWidth g /\
  windowHeight g' = windowHeight g /\
  camera g' = cams' /\
  activeCamera g' = a' /\
  frameLog g' = frameLog g ++ steps.

(** A fallible step returns a state, and that state satisfies [P]. *)
Definition runs_to (P : Game -> Prop) (m : option Game) : Prop :=
  exists g', m = Some g' /\ P g'.

(** Float operations stay folded under simplification. *)
Arguments fadd : simpl never.
Arguments fmul : simpl never.
Arguments fdiv : simpl never.
Arguments fleb : simpl never.
Arguments fltb : simpl never.
Arguments float_of_int : simpl never.
Arguments XMConvertToRadians : simpl never.

(* ================================================================== *)
(** ** More of [Game.cpp] and of the camera's use *)

(** 32-bit wrap-around of an [unsigned int] result. *)
Definition wrap_uint (n : Z) : Z := n mod 2 ^ 32.

(** [Init], lines 90-91: [size = (size + 15) / 16 * 16] on [unsigned int],
    the byte width given to the constant buffer. *)
Definition Init_buffer_size (size : Z) : Z :=
  wrap_uint (wrap_uint (size + 15) / 16 * 16).

Definition DXGI_PRESENT_ALLOW_TEARING : Z := 512.   (* 0x00000200 *)

(** [Draw], lines 348-353: the sync interval and the flags passed to
    [swapChain->Present]. *)
Definition Draw_present_args (vsync deviceSupportsTearing isFullscreen : bool) : Z * Z :=
  let vsyncNecessary := vsync || negb deviceSupportsTearing || isFullscreen in
  (if vsyncNecessary then 1 else 0,
   if vsyncNecessary then 0 else DXGI_PRESENT_ALLOW_TEARING).

(** What one frame receives from the overlay, the input devices and the
    timer. *)
Record FrameInput := mkFrameInput {
  frame_ui : Overlay;
  frame_input : Input;
  frame_deltaTime : float;
  frame_totalTime : float
}.

(** Modelled from the spec: the frame loop of the absent [DXCore] runs one
    frame after the other until the quit signal; [run] is a finite prefix of
    that loop, one frame per element. *)
Fixpoint run `{DX : DirectXMath} (frames : list FrameInput) (g : Game) : option Game :=
  match frames with
  | [] => Some g
  | f :: frames' =>
      g' ← Game.frame (frame_ui f) (frame_input f) (frame_deltaTime f) (frame_totalTime f) g;
      run frames' g'
  end.

(** The same input with the mouse button up, and with no key held. *)
Definition release_mouse (input : Input) : Input :=
  mkInput (KeyDown input) (KeyPress input) false (GetMouseXDelta input) (GetMouseYDelta input).

Definition release_keys (input : Input) : Input :=
  mkInput (fun _ => false) (KeyPress input) (MouseLeftDown input)
    (GetMouseXDelta input) (GetMouseYDelta input).

(** The view matrix of [c] is the one [UpdateViewMatrix] would store now. *)
Definition view_current `{DX : DirectXMath} (c : Camera) : Prop :=
  viewMatrix c = viewMatrix (Camera.UpdateViewMatrix c).

(** The projection matrix of [c] is the one [UpdateProjectionMatrix a]
    would store now. *)
Definition projection_current `{DX : DirectXMath} (a : float) (c : Camera) : Prop :=
  projectionMatrix c = projectionMatrix (Camera.UpdateProjectionMatrix a c).

(** Every camera of the scene has a current view matrix and a projection
    matrix built for the aspect ratio of the window. *)
Definition cameras_current `{DX : DirectXMath} (g : Game) : Prop :=
  Forall (fun c => view_current c /\ projection_current (Game.window_aspect g) c) (camera g).

(** Structural equality of floats, as a boolean. *)
Definition float_same_bits (a b : float) : bool :=
  match a, b with
  | S754_zero s, S754_zero s' => Bool.eqb s s'
  | S754_infinity s, S754_infinity s' => Bool.eqb s s'
  | S754_nan, S754_nan => true
  | S754_finite s m e, S754_finite s' m' e' => Bool.eqb s s' && Pos.eqb m m' && Z.eqb e e'
  | _, _ => false
  end.

(** [P] holds on the [n] integers from [lo] upward. *)
Fixpoint all_from (P : Z -> bool) (lo : Z) (n : nat) : bool :=
  match n with
  | O => true
  | S n' => P lo && all_from P (lo + 1) n'
  end.

(** Converting [10.0f * d] to [int] and back loses nothing. *)
Definition exact_at_10 (d : Z) : bool :=
  let p := fmul (float_of_int 10) (float_of_int d) in
  float_same_bits (float_of_int (int_of_float p)) p.

(** [(float)w / 0] is positive infinity. *)
Definition infinite_over_zero (w : Z) : bool :=
  float_same_bits (fdiv (float_of_int w) (float_of_int 0)) (S754_infinity false).

(** Slot [j] of the shape array and of every mirror array is the same in
    [g'] as in [g]. *)
Definition same_slot (j : nat) (g g' : Game) : Prop :=
  shapes g' !! j = shapes g !! j /\
  translation (mirrors g') !! j = translation (mirrors g) !! j /\
  rotation (mirrors g') !! j = rotation (mirrors g) !! j /\
  scale (mirrors g') !! j = scale (mirrors g) !! j /\
  colorOffset (mirrors g') !! j = colorOffset (mirrors g) !! j.

(** [g] with [steps] appended to its log. *)
Definition logged (steps : list Step) (g : Game) : Game :=
  mkGame (windowWidth g) (windowHeight g) (shapes g) (camera g) (activeCamera g)
    (going g) (mirrors g) (quit g) (frameLog g ++ steps).

(** The magnitude of a float is below one: a zero, or a finite
    [m * 2^e] with [e < 0] and [m < 2^(-e)]. *)
Definition below_one (x : float) : bool :=
  match x with
  | S754_zero _ => true
  | S754_finite _ m e => (e <? 0) && (Z.pos m <? 2 ^ (- e))
  | S754_infinity _ | S754_nan => false
  end.

(** An overlay whose translation widget reports [v] for every shape whose
    header is open, all headers being open. *)
Definition dragging_overlay (v : XMFLOAT3) : Overlay :=
  mkOverlay (fun _ => true) (fun _ => Some v) (fun _ => None) (fun _ => None) (fun _ => None)
    false false.

(** A scene whose window has been given height 0. *)
Definition flat_window_game : Game :=
  mkGame 1280 0 (shapes started_game) (camera started_game) 0 false
    (mirrors started_game) false [].

(* ================================================================== *)
(** ** Facts about binary32 values used below *)

Example f0_01_bits : f0_01 = S754_finite false 10737418 (-30).
Proof. reflexivity. Qed.

Example f0_1_bits : f0_1 = S754_finite false 13421773 (-27).
Proof. reflexivity. Qed.

Example f1000_bits : f1000 = S754_finite false 16384000 (-14).
Proof. reflexivity. Qed.

Example half_pi_bits : fdiv XM_PI (float_of_int 2) = S754_finite false 13176795 (-23).
Proof. reflexivity. Qed.

Example int_of_float_truncates :
  int_of_float (fdiv (float_of_int (-7)) (float_of_int 2)) = -3 /\
  int_of_float (fdiv f1 (float_of_int 2)) = 0 /\
  int_of_float (float_of_int 20) = 20.
Proof. repeat split; reflexivity. Qed.

(** Adding positive zero leaves a float as it is, except that negative zero
    becomes positive zero. *)
Lemma fadd_zero_r (a : float) :
  fadd a f0 = a \/ (a = S754_zero true /\ fadd a f0 = S754_zero false).
Proof. unfold fadd, f0. destruct a as [[|]|[|]| |[|] m e]; cbn; auto. Qed.

Lemma same_float_refl (a : float) : same_float a a.
Proof. now left. Qed.

Lemma same_float_fadd_zero (a : float) : same_float a (fadd a f0).
Proof.
  destruct (fadd_zero_r a) as [E | [Ea Eb]].
  - left. now rewrite E.
  - right. rewrite Eb, Ea. reflexivity.
Qed.

(* ================================================================== *)
(** ** Camera: projection and view matrices *)

Section CameraFacts.
Context `{DX : DirectXMath}.

Lemma Update_transform (input : Input) (dt : float) (c : Camera) :
    transform (Camera.Update input dt c)
    = fold_left perform (Camera.Update_transform_calls input dt c) (transform c).
Proof. reflexivity. Qed.

Lemma UpdateProjectionMatrix_frame (a : float) (c : Camera) :
    transform (Camera.UpdateProjectionMatrix a c) = transform c /\
    viewMatrix (Camera.UpdateProjectionMatrix a c) = viewMatrix c /\
    fov (Camera.UpdateProjectionMatrix a c) = fov c /\
    nearP (Camera.UpdateProjectionMatrix a c) = nearP c /\
    farP (Camera.UpdateProjectionMatrix a c) = farP c.
Proof. now repeat split. Qed.

  (** C1 (the code at its failing input): a constructed camera stores the
      near distance 0.1 and the far distance 1000, while every
      [UpdateProjectionMatrix] builds the projection from the stored
      field of view and the literals 0.01 and 1000; the stored near distance
      is not the one the matrix is built with. *)
Theorem projection_ignores_stored_near
      (x y z speed look fv a a' : float) :
    let c := Camera.UpdateProjectionMatrix a' (Camera.new x y z speed look fv a) in
    projectionMatrix c = XMMatrixPerspectiveFovLH fv a' f0_01 f1000 /\
    nearP c = f0_1 /\
    farP c = f1000 /\
    feqb (nearP c) Camera.projection_near = false /\
    feqb (farP c) Camera.projection_far = true.
Proof. cbv zeta. repeat split. Qed.

  (** C4: after every [Update], the view matrix is the look-to matrix of the
      transform's position and forward vector as they are after the update,
      with world up (0,1,0). *)
Theorem Update_view_matrix_current (input : Input) (dt : float) (c : Camera) :
    let c' := Camera.Update input dt c in
    let p := TransformOps.GetPosition (transform c') in
    let d := TransformOps.GetForward (transform c') in
    viewMatrix c'
    = XMMatrixLookToLH (XMVECTOR3 (f3x p) (f3y p) (f3z p))
                       (XMVECTOR3 (f3x d) (f3y d) (f3z d))
                       (XMVECTOR3 f0 f1 f0)
    /\ Camera.GetView c' = viewMatrix (Camera.UpdateViewMatrix c').
Proof. cbv zeta. split; reflexivity. Qed.

  (** C7: a camera constructed with field of view pi/2, at any position and
      aspect ratio, reports exactly pi/2 from [GetFov] after
      [UpdateProjectionMatrix], whatever matrix the library builds; and
      [UpdateProjectionMatrix] never changes the stored field of view. *)
Theorem GetFov_after_UpdateProjectionMatrix
      (x y z speed look a a' : float) :
    Camera.GetFov
      (Camera.UpdateProjectionMatrix a'
         (Camera.new x y z speed look (fdiv XM_PI (float_of_int 2)) a))
    = fdiv XM_PI (float_of_int 2)
    /\ forall c : Camera,
         Camera.GetFov (Camera.UpdateProjectionMatrix a' c) = Camera.GetFov c.
Proof. split; reflexivity. Qed.

  (** C8: [UpdateProjectionMatrix] with the same aspect ratio twice leaves
      the same stored projection matrix (and the same camera) as once. *)
Theorem UpdateProjectionMatrix_idempotent (a : float) (c : Camera) :
    projectionMatrix (Camera.UpdateProjectionMatrix a (Camera.UpdateProjectionMatrix a c))
    = projectionMatrix (Camera.UpdateProjectionMatrix a c)
    /\ Camera.UpdateProjectionMatrix a (Camera.UpdateProjectionMatrix a c)
       = Camera.UpdateProjectionMatrix a c.
Proof. split; reflexivity. Qed.
End CameraFacts.

(* ================================================================== *)
(** ** Camera: mouse look *)

Lemma filter_Rotate_move (b : bool) (x y z : float) (rest : list TransformCall) :
  List.filter is_Rotate ((if b then [CallMoveRelative x y z] else []) ++ rest)
  = List.filter is_Rotate rest.
Proof. now destruct b. Qed.

(** C3 (as stated, refuted): with look sensitivity one half, the button held,
    a cursor delta of one unit per axis and [dt = 1], the product is 0.5 per
    axis but the rotation issued is zero on every axis. *)
Lemma look_product_counterexample :
  ~ look_scaled_by_product look_input f1 half_speed_camera.
Proof.
  unfold look_scaled_by_product. vm_compute. intros E. discriminate E.
Qed.

(** C3 (amended): [Update] issues exactly one [Rotate] when the button is
    held and none otherwise; its pitch is the vertical cursor delta times
    [mouseLookSpeed], truncated to an [int], times [dt]; its yaw likewise
    from the horizontal delta; its roll is 0. *)
Theorem look_rotation_truncated (input : Input) (dt : float) (c : Camera) :
  List.filter is_Rotate (Camera.Update_transform_calls input dt c)
  = if MouseLeftDown input then [truncated_rotate input dt c] else [].
Proof.
  unfold Camera.Update_transform_calls.
  rewrite !filter_Rotate_move.
  now destruct (MouseLeftDown input).
Qed.

(** The product and the truncated rotation agree on the cameras the scene
    creates (sensitivity 10) for a small cursor delta. *)
Example truncation_exact_at_sensitivity_10 :
  let c := @Camera.new recordingDX f0 f0 f0 (float_of_int 5) (float_of_int 10) f1 f1 in
  let input := mkInput (fun _ => false) (fun _ => false) true 3 (-2) in
  truncated_rotate input f1 c = product_rotate input f1 c.
Proof. reflexivity. Qed.

(* ================================================================== *)
(** ** Camera: roll *)

Lemma roll_kept_trans (a b c : float) : roll_kept a b -> roll_kept b c -> roll_kept a c.
Proof.
  intros [-> | [-> ->]] [-> | [E ->]]; unfold roll_kept; auto; discriminate E.
Qed.

Lemma roll_kept_same (a b : float) : roll_kept a b -> same_float a b.
Proof. intros [-> | [-> ->]]; [now left | now right]. Qed.

Lemma Update_calls_roll_arg_zero (input : Input) (dt : float) (c : Camera) :
  Forall roll_arg_zero (Camera.Update_transform_calls input dt c).
Proof.
  unfold Camera.Update_transform_calls.
  repeat (apply Forall_app; split);
    match goal with |- Forall _ (if ?b then _ else _) => destruct b end;
    repeat constructor.
Qed.

Section RollFacts.
Context `{DX : DirectXMath}.

Lemma perform_roll_kept (t : Transform) (c : TransformCall) :
  roll_arg_zero c -> roll_kept (roll t) (roll (perform t c)).
Proof.
  destruct c as [x y z | p y r]; cbn.
  - intros _. now left.
  - intros ->. unfold roll, roll_kept; cbn.
    destruct (fadd_zero_r (f3z (pitchYawRoll t))) as [E | [Ea Eb]]; auto.
Qed.

Lemma perform_all_roll_kept (calls : list TransformCall) :
  Forall roll_arg_zero calls ->
  forall t, roll_kept (roll t) (roll (fold_left perform calls t)).
Proof.
  induction 1 as [| c calls Hc _ IH]; intros t; cbn.
  - now left.
  - eapply roll_kept_trans; [apply perform_roll_kept, Hc | apply IH].
Qed.

(** C10: [Update] issues only [MoveRelative] calls and [Rotate] calls whose
    roll argument is 0, and the camera's roll after the update equals the
    roll before it: it is the same float, the one exception being a roll of
    negative zero, which adding 0 turns into positive zero, the same angle
    and equal to it under [==]. *)
Theorem Update_keeps_roll (input : Input) (dt : float) (c : Camera) :
  Forall roll_arg_zero (Camera.Update_transform_calls input dt c)
  /\ roll_kept (roll (transform c)) (roll (transform (Camera.Update input dt c)))
  /\ same_float (roll (transform c)) (roll (transform (Camera.Update input dt c))).
Proof.
  assert (K : roll_kept (roll (transform c)) (roll (transform (Camera.Update input dt c)))).
  { rewrite Update_transform.
    apply perform_all_roll_kept, Update_calls_roll_arg_zero. }
  split; [apply Update_calls_roll_arg_zero |].
  split; [exact K | apply roll_kept_same, K].
Qed.
End RollFacts.

(* ================================================================== *)
(** ** Scene: well-formed states *)

Lemma length_5 {A : Type} (l : list A) :
  length l = 5%nat -> exists a b c d e, l = [a; b; c; d; e].
Proof.
  destruct l as [| a [| b [| c [| d [| e [| x l]]]]]]; try discriminate.
  intros _. now exists a, b, c, d, e.
Qed.

Lemma length_3 {A : Type} (l : list A) :
  length l = 3%nat -> exists a b c, l = [a; b; c].
Proof.
  destruct l as [| a [| b [| c [| x l]]]]; try discriminate.
  intros _. now exists a, b, c.
Qed.

Lemma index_ok_cases (v : Z) : index_ok v -> v = 0 \/ v = 1 \/ v = 2.
Proof. unfold index_ok. lia. Qed.

Lemma next_camera_mod (v : Z) : 0 <= v < INT_MAX -> next_camera v = (v + 1) mod 3.
Proof.
  unfold INT_MAX, next_camera, wrap_int. intros H.
  replace ((v + 1 + 2 ^ 31) mod 2 ^ 32 - 2 ^ 31) with (v + 1).
  - apply Z.rem_mod_nonneg; lia.
  - rewrite Z.mod_small; lia.
Qed.

Lemma next_camera_index_ok (v : Z) : index_ok v -> index_ok (next_camera v).
Proof.
  intros H. destruct (index_ok_cases v H) as [-> | [-> | ->]];
    vm_compute; split; congruence.
Qed.

Lemma iter_next_camera_index_ok (n : nat) (v : Z) :
  index_ok v -> index_ok (Nat.iter n next_camera v).
Proof.
  intros H. induction n as [| n IH]; [exact H |].
  rewrite Nat.iter_succ. now apply next_camera_index_ok.
Qed.

Lemma iter_next_camera_mod (n : nat) (v : Z) :
  index_ok v ->
  Nat.iter n next_camera v = Nat.iter n (fun i => (i + 1) mod 3) v.
Proof.
  intros H. induction n as [| n IH]; [reflexivity |].
  rewrite !Nat.iter_succ, <- IH. apply next_camera_mod.
  pose proof (iter_next_camera_index_ok n v H) as K.
  unfold index_ok, INT_MAX in *. lia.
Qed.

Lemma array_at_index_ok {A : Type} (l : list A) (v : Z) :
  length l = 3%nat -> index_ok v -> exists x, array_at l v = Some x.
Proof.
  intros L H. destruct (length_3 l L) as (a & b & c & ->).
  destruct (index_ok_cases v H) as [-> | [-> | ->]]; eexists; reflexivity.
Qed.

(** A loop whose body keeps an invariant and does not fail keeps it too. *)
Lemma for_each_inv (I : Game -> Prop) (n : nat) (body : nat -> Game -> option Game) :
  (forall i g, (i < n)%nat -> I g -> exists g', body i g = Some g' /\ I g') ->
  forall g, I g -> exists g', for_each n body g = Some g' /\ I g'.
Proof.
  intros Hbody. unfold for_each.
  assert (G : forall l g, List.Forall (fun i => (i < n)%nat) l -> I g ->
            exists g', fold_left (fun acc i => g' ← acc; body i g') l (Some g) = Some g' /\ I g').
  { induction l as [| i l IH]; intros g Hl Hg; cbn.
    - now exists g.
    - inversion Hl as [| ? ? Hi Hl']; subst.
      destruct (Hbody i g Hi Hg) as (g1 & E1 & I1).
      rewrite E1. now apply IH. }
  intros g Hg. apply G; [| exact Hg].
  apply Forall_forall. intros i Hi. apply elem_of_seq in Hi. lia.
Qed.

(* ================================================================== *)
(** ** Scene: the phases of [Update] and [Draw] *)

Lemma keeps_refl (g : Game) : keeps g g.
Proof. now split. Qed.

Lemma keeps_trans (g1 g2 g3 : Game) : keeps g1 g2 -> keeps g2 g3 -> keeps g1 g3.
Proof. intros [R1 D1] [R2 D2]. split; congruence. Qed.

Lemma arrays_ok_dims (g : Game) : arrays_ok g <-> dims g = (5, 5, 5, 5, 5)%nat.
Proof.
  unfold arrays_ok, dims. split.
  - intros (-> & -> & -> & -> & ->). reflexivity.
  - intros E. injection E as -> -> -> -> ->. now repeat split.
Qed.

Lemma keeps_arrays_ok (g g' : Game) : keeps g g' -> arrays_ok g -> arrays_ok g'.
Proof. intros [_ D] H. apply arrays_ok_dims. rewrite D. now apply arrays_ok_dims. Qed.

Lemma shape_transform_keeps (i : nat) (f : Transform -> Transform) (g : Game) :
  (i < length (shapes g))%nat ->
  exists g', shape_transform i f g = Some g' /\ keeps g g' /\ going g' = going g.
Proof.
  intros Hi. unfold shape_transform.
  destruct (lookup_lt_is_Some_2 _ _ Hi) as [e E]. rewrite E. cbn.
  eexists. split; [reflexivity |]. unfold keeps, rest, dims. cbn.
  now rewrite length_insert.
Qed.

Lemma shape_mesh_keeps (i : nat) (f : Mesh -> Mesh) (g : Game) :
  (i < length (shapes g))%nat ->
  exists g', shape_mesh i f g = Some g' /\ keeps g g'.
Proof.
  intros Hi. unfold shape_mesh.
  destruct (lookup_lt_is_Some_2 _ _ Hi) as [e E]. rewrite E. cbn.
  eexists. split; [reflexivity |]. unfold keeps, rest, dims. cbn.
  now rewrite length_insert.
Qed.

Section GameFacts.
Context `{DX : DirectXMath}.

Lemma edit_translation_keeps (ui : Overlay) (i : nat) (g : Game) :
  (i < 5)%nat -> arrays_ok g ->
  exists g', Game.edit_translation ui i g = Some g' /\ keeps g g'.
Proof.
  intros Hi (Hs & Ht & Hr & Hc & Ho). unfold Game.edit_translation.
  destruct (DragTranslation ui i) as [v |]; [| exists g; split; [reflexivity | apply keeps_refl]].
  cbn. rewrite list_lookup_insert_eq by lia. cbn.
  match goal with |- context [shape_transform i ?f ?g1] =>
    destruct (shape_transform_keeps i f g1) as (g2 & E & K & _); [cbn; lia |];
    exists g2; split; [exact E |];
    apply keeps_trans with g1; [| exact K]
  end.
  unfold keeps, rest, dims; cbn. now rewrite length_insert.
Qed.

Lemma edit_rotation_keeps (ui : Overlay) (i : nat) (g : Game) :
  (i < 5)%nat -> arrays_ok g ->
  exists g', Game.edit_rotation ui i g = Some g' /\ keeps g g'.
Proof.
  intros Hi (Hs & Ht & Hr & Hc & Ho). unfold Game.edit_rotation.
  destruct (DragRotation ui i) as [v |]; [| exists g; split; [reflexivity | apply keeps_refl]].
  cbn. rewrite list_lookup_insert_eq by lia. cbn.
  match goal with |- context [shape_transform i ?f ?g1] =>
    destruct (shape_transform_keeps i f g1) as (g2 & E & K & _); [cbn; lia |];
    exists g2; split; [exact E |];
    apply keeps_trans with g1; [| exact K]
  end.
  unfold keeps, rest, dims; cbn. now rewrite length_insert.
Qed.

Lemma edit_scale_keeps (ui : Overlay) (i : nat) (g : Game) :
  (i < 5)%nat -> arrays_ok g ->
  exists g', Game.edit_scale ui i g = Some g' /\ keeps g g'.
Proof.
  intros Hi (Hs & Ht & Hr & Hc & Ho). unfold Game.edit_scale.
  destruct (DragScale ui i) as [v |]; [| exists g; split; [reflexivity | apply keeps_refl]].
  cbn. rewrite list_lookup_insert_eq by lia. cbn.
  match goal with |- context [shape_transform i ?f ?g1] =>
    destruct (shape_transform_keeps i f g1) as (g2 & E & K & _); [cbn; lia |];
    exists g2; split; [exact E |];
    apply keeps_trans with g1; [| exact K]
  end.
  unfold keeps, rest, dims; cbn. now rewrite length_insert.
Qed.

Lemma edit_color_keeps (ui : Overlay) (i : nat) (g : Game) :
  (i < 5)%nat -> arrays_ok g ->
  exists g', Game.edit_color ui i g = Some g' /\ keeps g g'.
Proof.
  intros Hi (Hs & Ht & Hr & Hc & Ho). unfold Game.edit_color.
  destruct (ColorEdit3 ui i) as [v |]; [| exists g; split; [reflexivity | apply keeps_refl]].
  destruct (lookup_lt_is_Some_2 (colorOffset (mirrors g)) i) as [old E0]; [lia |].
  rewrite E0. cbn. rewrite list_lookup_insert_eq by lia. cbn.
  match goal with |- context [shape_mesh i ?f ?g1] =>
    destruct (shape_mesh_keeps i f g1) as (g2 & E & K); [cbn; lia |];
    exists g2; split; [exact E |];
    apply keeps_trans with g1; [| exact K]
  end.
  unfold keeps, rest, dims; cbn. now rewrite length_insert.
Qed.

Lemma overlay_shape_keeps (ui : Overlay) (i : nat) (g : Game) :
  (i < 5)%nat -> arrays_ok g ->
  exists g', Game.overlay_shape ui i g = Some g' /\ keeps g g'.
Proof.
  intros Hi A. unfold Game.overlay_shape.
  destruct (ShapeHeader ui i); [| exists g; split; [reflexivity | apply keeps_refl]].
  destruct (edit_translation_keeps ui i g Hi A) as (g1 & E1 & K1). rewrite E1. cbn.
  pose proof (keeps_arrays_ok _ _ K1 A) as A1.
  destruct (edit_rotation_keeps ui i g1 Hi A1) as (g2 & E2 & K2). rewrite E2. cbn.
  pose proof (keeps_arrays_ok _ _ K2 A1) as A2.
  destruct (edit_scale_keeps ui i g2 Hi A2) as (g3 & E3 & K3). rewrite E3. cbn.
  pose proof (keeps_arrays_ok _ _ K3 A2) as A3.
  destruct (edit_color_keeps ui i g3 Hi A3) as (g4 & E4 & K4).
  exists g4. split; [exact E4 |].
  eauto using keeps_trans.
Qed.

Lemma overlay_shapes_keeps (ui : Overlay) (g : Game) :
  arrays_ok g ->
  exists g', for_each 5 (Game.overlay_shape ui) g = Some g' /\ keeps g g'.
Proof.
  intros A.
  destruct (for_each_inv (fun g' => arrays_ok g' /\ keeps g g') 5 (Game.overlay_shape ui))
    with (g := g) as (g' & E & _ & K).
  - intros i g1 Hi [A1 K1].
    destruct (overlay_shape_keeps ui i g1 Hi A1) as (g2 & E2 & K2).
    exists g2. split; [exact E2 |]. split.
    + now apply (keeps_arrays_ok g1).
    + now apply keeps_trans with g1.
  - split; [exact A | apply keeps_refl].
  - now exists g'.
Qed.
Lemma keeps_phase (g g' : Game) :
  keeps g g' -> phase g g' (activeCamera g) (camera g) [].
Proof.
  intros [R D]. unfold rest in R. injection R as W H C A _ L.
  unfold phase. rewrite app_nil_r. now repeat split.
Qed.

Lemma wf_game_phase (g g' : Game) (a' : Z) (cams' : list Camera) (steps : list Step) :
  phase g g' a' cams' steps -> wf_game g ->
  length cams' = 3%nat -> index_ok a' -> wf_game g'.
Proof.
  intros (D & _ & _ & C & A & _) (Ok & _ & _) Hc Ha.
  split; [| split].
  - apply arrays_ok_dims. rewrite D. now apply arrays_ok_dims.
  - now rewrite C.
  - now rewrite A.
Qed.

Lemma overlay_ok (ui : Overlay) (input : Input) (g : Game) :
  wf_game g ->
  exists g', Game.overlay ui input g = Some g' /\
    phase g g' (Nat.iter (switches ui input) next_camera (activeCamera g)) (camera g)
      [StepOverlay].
Proof.
  intros (A & Hc & Ha). unfold Game.overlay.
  destruct (overlay_shapes_keeps ui g A) as (g1 & E1 & K1). rewrite E1. cbn.
  destruct (keeps_phase _ _ K1) as (D1 & W1 & H1 & C1 & A1 & L1).
  rewrite app_nil_r in L1.
  destruct (array_at_index_ok (camera g1) (activeCamera g1)) as [c Ec];
    [now rewrite C1 | now rewrite A1 |].
  unfold switches.
  destruct (CameraSettingsHeader ui), (ChangeCameraButton ui), (KeyPress input (key "C"));
    cbn; rewrite ?Ec; cbn;
    (eexists; split; [reflexivity |]);
    unfold phase, dims; cbn; rewrite ?A1, ?L1;
    (split; [exact D1 | now repeat split]).
Qed.

Lemma runs_to_ret (P : Game -> Prop) (g : Game) : P g -> runs_to P (Some g).
Proof. intros H. now exists g. Qed.

Lemma runs_to_bind (Q P : Game -> Prop) (m : option Game) (k : Game -> option Game) :
  runs_to Q m -> (forall g1, Q g1 -> runs_to P (k g1)) -> runs_to P (m ≫= k).
Proof. intros (g1 & -> & H1) Hk. cbn. now apply Hk. Qed.

Lemma shape_transform_runs (g0 g1 : Game) (i : nat) (f : Transform -> Transform) :
  arrays_ok g0 -> keeps g0 g1 -> (i < 5)%nat ->
  runs_to (keeps g0) (shape_transform i f g1).
Proof.
  intros A K Hi.
  destruct (shape_transform_keeps i f g1) as (g2 & E & K2 & _).
  - destruct (keeps_arrays_ok _ _ K A) as [-> _]. exact Hi.
  - exists g2. split; [exact E | now apply keeps_trans with g1].
Qed.

Lemma set_going_keeps (g0 g1 : Game) (b : bool) : keeps g0 g1 -> keeps g0 (set_going b g1).
Proof. intros K. apply keeps_trans with g1; [exact K | now split]. Qed.

Lemma animate_ok (deltaTime : float) (g : Game) :
  arrays_ok g ->
  exists g', Game.animate deltaTime g = Some g' /\
    phase g g' (activeCamera g) (camera g) [StepAnimate].
Proof.
  intros A. unfold Game.animate.
  destruct (lookup_lt_is_Some_2 (shapes g) 0%nat) as [s0 E0];
    [destruct A as [-> _]; lia |].
  rewrite E0. cbn [mbind option_bind].
  apply (runs_to_bind (keeps g)).
  { destruct (fleb _ f1 && going g); [| destruct (fltb f0 _)].
    - apply (runs_to_bind (keeps g)).
      + apply shape_transform_runs; [exact A | apply keeps_refl | lia].
      + intros g1 K1. apply shape_transform_runs; [exact A | exact K1 | lia].
    - apply (runs_to_bind (keeps g)).
      + apply shape_transform_runs; [exact A | apply set_going_keeps, keeps_refl | lia].
      + intros g1 K1. apply shape_transform_runs; [exact A | exact K1 | lia].
    - apply runs_to_ret, set_going_keeps, keeps_refl. }
  intros g1 K1. apply (runs_to_bind (keeps g)).
  { destruct (going g1); cbn [negb];
      apply shape_transform_runs; solve [exact A | exact K1 | lia]. }
  intros g2 K2. apply (runs_to_bind (keeps g)).
  { apply shape_transform_runs; [exact A | exact K2 | lia]. }
  intros g3 K3. apply (runs_to_bind (keeps g)).
  { apply shape_transform_runs; [exact A | exact K3 | lia]. }
  intros g4 K4. apply runs_to_ret.
  destruct (keeps_phase _ _ K4) as (D & W & H & C & Ac & L).
  rewrite app_nil_r in L.
  unfold phase, dims in *; cbn. rewrite L. now repeat split.
Qed.

Lemma update_active_camera_ok (input : Input) (deltaTime : float) (g : Game) :
  length (camera g) = 3%nat -> index_ok (activeCamera g) ->
  exists g' c, array_at (camera g) (activeCamera g) = Some c /\
    Game.update_active_camera input deltaTime g = Some g' /\
    phase g g' (activeCamera g)
      (<[Z.to_nat (activeCamera g) := Camera.Update input deltaTime c]> (camera g))
      [StepCameraUpdate (activeCamera g)].
Proof.
  intros Hc Ha. destruct (array_at_index_ok _ _ Hc Ha) as [c Ec].
  unfold Game.update_active_camera. rewrite Ec. cbn.
  eexists _, c. split; [reflexivity |]. split; [reflexivity |].
  now unfold phase.
Qed.
Lemma phase_trans (g g1 g2 : Game) (a1 a2 : Z) (c1 c2 : list Camera) (s1 s2 : list Step) :
  phase g g1 a1 c1 s1 -> phase g1 g2 a2 c2 s2 -> phase g g2 a2 c2 (s1 ++ s2).
Proof.
  intros (D1 & W1 & H1 & C1 & A1 & L1) (D2 & W2 & H2 & C2 & A2 & L2).
  unfold phase. rewrite D2, W2, H2, L2, L1, app_assoc. now repeat split.
Qed.

Lemma Update_ok (ui : Overlay) (input : Input) (deltaTime totalTime : float) (g : Game) :
  wf_game g ->
  exists g' c,
    Game.Update ui input deltaTime totalTime g = Some g' /\
    array_at (camera g) (Nat.iter (switches ui input) next_camera (activeCamera g)) = Some c /\
    phase g g' (Nat.iter (switches ui input) next_camera (activeCamera g))
      (<[Z.to_nat (Nat.iter (switches ui input) next_camera (activeCamera g))
         := Camera.Update input deltaTime c]> (camera g))
      (update_steps (Nat.iter (switches ui input) next_camera (activeCamera g))).
Proof.
  intros WF. pose proof WF as (A & Hc & Ha).
  set (a := Nat.iter (switches ui input) next_camera (activeCamera g)).
  assert (Ia : index_ok a) by now apply iter_next_camera_index_ok.
  unfold Game.Update.
  destruct (overlay_ok ui input g WF) as (g1 & E1 & P1). rewrite E1. cbn [mbind option_bind].
  fold a in P1.
  pose proof (wf_game_phase _ _ _ _ _ P1 WF Hc Ia) as (A1 & Hc1 & Ha1).
  destruct (animate_ok deltaTime g1 A1) as (g2 & E2 & P2). rewrite E2. cbn [mbind option_bind].
  pose proof P1 as (_ & _ & _ & C1 & Ac1 & _).
  pose proof P2 as (_ & _ & _ & C2 & Ac2 & _).
  destruct (update_active_camera_ok input deltaTime g2) as (g3 & c & Ec & E3 & P3);
    [congruence | congruence |].
  rewrite E3. cbn [mbind option_bind].
  rewrite C2, Ac2, C1, Ac1 in Ec, P3.
  pose proof (phase_trans _ _ _ _ _ _ _ _ _ (phase_trans _ _ _ _ _ _ _ _ _ P1 P2) P3) as P.
  eexists _, c. split; [reflexivity |]. split; [exact Ec |].
  destruct (KeyDown input VK_ESCAPE); exact P.
Qed.

Lemma Draw_ok (deltaTime totalTime : float) (g : Game) :
  wf_game g ->
  exists g' cam,
    Game.Draw deltaTime totalTime g = Some g' /\
    array_at (camera g) (activeCamera g) = Some cam /\
    phase g g' (activeCamera g) (camera g) (draw_steps cam).
Proof.
  intros ((Hs & _) & Hc & Ha).
  destruct (array_at_index_ok _ _ Hc Ha) as [cam Ec].
  destruct (length_5 _ Hs) as (e0 & e1 & e2 & e3 & e4 & Es).
  unfold Game.Draw, for_each. cbn.
  repeat first [rewrite Es | rewrite Ec | progress cbn].
  eexists _, cam. split; [reflexivity |]. split; [reflexivity |].
  unfold phase, dims, draw_steps; cbn.
  rewrite <- !app_assoc. now repeat split.
Qed.

Lemma frame_ok (ui : Overlay) (input : Input) (deltaTime totalTime : float) (g : Game) :
  wf_game g ->
  exists g1 g' cam,
    Game.Update ui input deltaTime totalTime g = Some g1 /\
    Game.Draw deltaTime totalTime g1 = Some g' /\
    Game.frame ui input deltaTime totalTime g = Some g' /\
    wf_game g1 /\ wf_game g' /\
    activeCamera g1 = Nat.iter (switches ui input) next_camera (activeCamera g) /\
    activeCamera g' = activeCamera g1 /\
    array_at (camera g') (activeCamera g') = Some cam /\
    frameLog g' = frameLog g ++ update_steps (activeCamera g') ++ draw_steps cam.
Proof.
  intros WF. pose proof WF as (A & Hc & Ha).
  destruct (Update_ok ui input deltaTime totalTime g WF) as (g1 & c & E1 & Ec & P1).
  assert (Ia : index_ok (Nat.iter (switches ui input) next_camera (activeCamera g)))
    by now apply iter_next_camera_index_ok.
  assert (WF1 : wf_game g1).
  { apply (wf_game_phase _ _ _ _ _ P1 WF); [now rewrite length_insert | exact Ia]. }
  destruct (Draw_ok deltaTime totalTime g1 WF1) as (g' & cam & E2 & Ecam & P2).
  pose proof P1 as (_ & _ & _ & C1 & A1 & L1).
  pose proof P2 as (_ & _ & _ & C2 & A2 & L2).
  assert (WF' : wf_game g').
  { apply (wf_game_phase _ _ _ _ _ P2 WF1); apply WF1. }
  exists g1, g', cam. unfold Game.frame. rewrite E1. cbn [mbind option_bind].
  repeat split; try assumption; try apply WF1; try apply WF'.
  - now rewrite C2, A2.
  - rewrite L2, L1, A2, A1, app_assoc. reflexivity.
Qed.
Lemma OnResize_ok (g : Game) :
  length (camera g) = 3%nat ->
  Game.OnResize g
  = Some (set_camera (map (Camera.UpdateProjectionMatrix (Game.window_aspect g)) (camera g)) g).
Proof.
  intros Hc. destruct (length_3 _ Hc) as (a & b & c & Ec).
  unfold Game.OnResize, for_each. cbn.
  repeat first [rewrite Ec | progress cbn]. reflexivity.
Qed.

(* ================================================================== *)
(** ** Scene: the claims *)

(** C2 (amended): in every frame the scripted entity transforms are
    advanced first (after the overlay is built), then the active camera is
    advanced via [Update], then each of the five entities is drawn against
    the active camera as it then is, then the frame is presented. *)
Theorem frame_order (ui : Overlay) (input : Input) (deltaTime totalTime : float) (g : Game) :
  wf_game g ->
  exists g1 g' cam,
    Game.Update ui input deltaTime totalTime g = Some g1 /\
    Game.Draw deltaTime totalTime g1 = Some g' /\
    Game.frame ui input deltaTime totalTime g = Some g' /\
    frameLog g1
    = frameLog g ++ [StepOverlay; StepAnimate; StepCameraUpdate (activeCamera g1)] /\
    array_at (camera g1) (activeCamera g1) = Some cam /\
    frameLog g'
    = frameLog g ++
      [StepOverlay; StepAnimate; StepCameraUpdate (activeCamera g1);
       StepClear;
       StepEntityDraw 0 cam; StepEntityDraw 1 cam; StepEntityDraw 2 cam;
       StepEntityDraw 3 cam; StepEntityDraw 4 cam;
       StepOverlayRender; StepPresent].
Proof.
  intros WF.
  destruct (Update_ok ui input deltaTime totalTime g WF) as (g1 & c & E1 & Ec & P1).
  destruct (frame_ok ui input deltaTime totalTime g WF)
    as (g1' & g' & cam & E1' & E2 & E & WF1 & _ & _ & A2 & Ecam & L).
  assert (g1' = g1) by congruence. subst g1'.
  destruct (Draw_ok deltaTime totalTime g1 WF1) as (g2 & cam' & E2' & Ecam' & P2).
  assert (g2 = g') by congruence. subst g2.
  destruct P2 as (_ & _ & _ & C2 & _ & _).
  destruct P1 as (_ & _ & _ & _ & A1 & L1).
  rewrite C2, A2 in Ecam. rewrite A2 in L.
  exists g1, g', cam. repeat split; try assumption.
  rewrite L1, A1. reflexivity.
Qed.

(** C5: each switch statement of [Update] (the overlay button and the 'C'
    key) maps the active-camera index [v] to [(v + 1) mod 3], so that an
    [Update] in which [n] of them run leaves the index advanced [n] times;
    and three switches from 0 return to 0. *)
Theorem camera_switch_cycles
    (ui : Overlay) (input : Input) (deltaTime totalTime : float) (g : Game) :
  wf_game g ->
  next_camera (activeCamera g) = (activeCamera g + 1) mod 3 /\
  (exists g', Game.Update ui input deltaTime totalTime g = Some g' /\
     activeCamera g'
     = Nat.iter (switches ui input) (fun v => (v + 1) mod 3) (activeCamera g)) /\
  next_camera (next_camera (next_camera 0)) = 0.
Proof.
  intros WF. pose proof WF as (_ & _ & Ha).
  split; [| split].
  - apply next_camera_mod. unfold index_ok, INT_MAX in *. lia.
  - destruct (Update_ok ui input deltaTime totalTime g WF) as (g' & c & E & _ & P).
    exists g'. split; [exact E |].
    destruct P as (_ & _ & _ & _ & -> & _). now apply iter_next_camera_mod.
  - reflexivity.
Qed.

(** C6: the resize handler succeeds and replaces each of the three cameras
    by the same camera with its projection rebuilt for the new aspect ratio
    (window width divided by window height); the next [Draw] passes a camera
    with that projection to every entity. *)
Theorem OnResize_updates_every_camera (deltaTime totalTime : float) (g : Game) :
  wf_game g ->
  exists g',
    Game.OnResize g = Some g' /\
    length (camera g') = 3%nat /\
    camera g' = map (Camera.UpdateProjectionMatrix (Game.window_aspect g)) (camera g) /\
    Forall (fun c' => projectionMatrix c'
                      = XMMatrixPerspectiveFovLH (fov c') (Game.window_aspect g) f0_01 f1000)
           (camera g') /\
    Game.window_aspect g = fdiv (float_of_int (windowWidth g)) (float_of_int (windowHeight g)) /\
    exists g'' cam,
      Game.Draw deltaTime totalTime g' = Some g'' /\
      frameLog g'' = frameLog g ++ draw_steps cam /\
      projectionMatrix cam
      = XMMatrixPerspectiveFovLH (fov cam) (Game.window_aspect g) f0_01 f1000.
Proof.
  intros WF. pose proof WF as (A & Hc & Ha).
  eexists. split; [apply OnResize_ok, Hc |]. cbn [camera set_camera].
  assert (F : Forall (fun c' => projectionMatrix c'
                      = XMMatrixPerspectiveFovLH (fov c') (Game.window_aspect g) f0_01 f1000)
                (map (Camera.UpdateProjectionMatrix (Game.window_aspect g)) (camera g))).
  { apply Forall_forall. intros c' Hin. apply list_elem_of_fmap in Hin.
    destruct Hin as (c & -> & _). reflexivity. }
  split; [now rewrite length_map |]. split; [reflexivity |]. split; [exact F |].
  split; [reflexivity |].
  match goal with |- context [Game.Draw _ _ ?g1] =>
    destruct (Draw_ok deltaTime totalTime g1) as (g'' & cam & E & Ecam & P)
  end.
  { split; [exact A |]. split; [cbn; now rewrite length_map | exact Ha]. }
  exists g'', cam. split; [exact E |].
  destruct P as (_ & _ & _ & _ & _ & L). split; [exact L |].
  cbn in Ecam. unfold array_at in Ecam.
  destruct (0 <=? activeCamera g); [| discriminate].
  apply list_elem_of_lookup_2 in Ecam.
  exact (proj1 (Forall_forall _ _) F cam Ecam).
Qed.

(** C9: from a state whose active-camera index is 0, 1 or 2, a switch
    yields 0, 1 or 2, [Update] and [Draw] both succeed (so every indexing
    of the camera array in them is in bounds), and the index is 0, 1 or 2
    after each. *)
Theorem activeCamera_in_bounds
    (ui : Overlay) (input : Input) (deltaTime totalTime : float) (g : Game) :
  wf_game g ->
  index_ok (next_camera (activeCamera g)) /\
  is_Some (array_at (camera g) (activeCamera g)) /\
  exists g1 g2,
    Game.Update ui input deltaTime totalTime g = Some g1 /\
    Game.Draw deltaTime totalTime g1 = Some g2 /\
    index_ok (activeCamera g1) /\
    is_Some (array_at (camera g1) (activeCamera g1)) /\
    index_ok (activeCamera g2) /\
    is_Some (array_at (camera g2) (activeCamera g2)).
Proof.
  intros WF. pose proof WF as (_ & Hc & Ha).
  assert (S : forall g0, wf_game g0 -> is_Some (array_at (camera g0) (activeCamera g0))).
  { intros g0 (_ & Hc0 & Ha0). destruct (array_at_index_ok _ _ Hc0 Ha0) as [c E].
    now exists c. }
  split; [now apply next_camera_index_ok |]. split; [now apply S |].
  destruct (frame_ok ui input deltaTime totalTime g WF)
    as (g1 & g2 & cam & E1 & E2 & _ & WF1 & WF2 & _).
  exists g1, g2. repeat split; try assumption; try apply WF1; try apply WF2; now apply S.
Qed.
End GameFacts.

(* ================================================================== *)
(** ** The theorems at explicit inputs *)

Lemma started_game_wf : wf_game started_game.
Proof. repeat split; try reflexivity; cbv; congruence. Defined.

(** C2 (as stated, refuted): in the first frame of the started scene no
    camera update is logged before the entity animation; the animation is
    logged before the camera update. *)
Lemma camera_first_counterexample :
  option_map
    (fun g => (camera_first_order (frameLog g),
               occurs_before is_StepCameraUpdate is_StepAnimate (frameLog g),
               occurs_before is_StepAnimate is_StepCameraUpdate (frameLog g)))
    (@Game.frame recordingDX idle_overlay idle_input f0_01 f0_01 started_game)
  = Some (false, false, true).
Proof. vm_compute. reflexivity. Qed.

Lemma frame_order_witness :
  wf_game started_game /\
  exists g', @Game.frame recordingDX idle_overlay idle_input f0_01 f0_01 started_game = Some g'.
Proof.
  split; [exact started_game_wf |].
  destruct (@frame_order recordingDX idle_overlay idle_input f0_01 f0_01 started_game
              started_game_wf) as (_ & g' & _ & _ & _ & E & _).
  exists g'. exact E.
Defined.

Lemma camera_switch_cycles_witness :
  wf_game started_game /\
  next_camera (activeCamera started_game) = (activeCamera started_game + 1) mod 3.
Proof.
  split; [exact started_game_wf |].
  exact (proj1 (@camera_switch_cycles recordingDX idle_overlay idle_input f0_01 f0_01
                  started_game started_game_wf)).
Defined.

Lemma OnResize_updates_every_camera_witness :
  wf_game started_game /\
  exists g', @Game.OnResize recordingDX started_game = Some g'.
Proof.
  split; [exact started_game_wf |].
  destruct (@OnResize_updates_every_camera recordingDX f0_01 f0_01 started_game
              started_game_wf) as (g' & E & _).
  exists g'. exact E.
Defined.

Lemma activeCamera_in_bounds_witness :
  wf_game started_game /\ index_ok (next_camera (activeCamera started_game)).
Proof.
  split; [exact started_game_wf |].
  exact (proj1 (@activeCamera_in_bounds recordingDX idle_overlay idle_input f0_01 f0_01
                  started_game started_game_wf)).
Defined.

(* ================================================================== *)
(** ** Camera: what an update changes *)

Lemma all_from_spec (P : Z -> bool) (n : nat) :
  forall lo d, all_from P lo n = true -> lo <= d < lo + Z.of_nat n -> P d = true.
Proof.
  induction n as [| n IH]; intros lo d H R.
  - lia.
  - cbn [all_from] in H. apply andb_prop in H as [H0 H1].
    destruct (Z.eq_dec d lo) as [-> | Hne]; [exact H0 |].
    apply (IH (lo + 1)); [exact H1 | lia].
Qed.

Lemma float_same_bits_eq (a b : float) : float_same_bits a b = true -> a = b.
Proof.
  destruct a as [s | s | | s m e], b as [s' | s' | | s' m' e']; cbn; try discriminate.
  - intros H. apply Bool.eqb_prop in H. now subst.
  - intros H. apply Bool.eqb_prop in H. now subst.
  - reflexivity.
  - intros H. apply andb_prop in H as [H He]. apply andb_prop in H as [Hs Hm].
    apply Bool.eqb_prop in Hs. apply Pos.eqb_eq in Hm. apply Z.eqb_eq in He. now subst.
Qed.

Lemma set_transform_same (c : Camera) : set_transform (transform c) c = c.
Proof. now destruct c. Qed.

(** The calls of an update are those with the button up, followed by the
    look rotation when the button is held. *)
Lemma Update_calls_split (input : Input) (dt : float) (c : Camera) :
  Camera.Update_transform_calls input dt c
  = Camera.Update_transform_calls (release_mouse input) dt c
    ++ (if MouseLeftDown input then [truncated_rotate input dt c] else []).
Proof.
  unfold Camera.Update_transform_calls, release_mouse. cbn.
  rewrite app_nil_r, <- !app_assoc. reflexivity.
Qed.

Lemma Update_calls_no_keys (input : Input) (dt : float) (c : Camera) :
  Camera.Update_transform_calls (release_keys input) dt c
  = if MouseLeftDown input then [truncated_rotate input dt c] else [].
Proof. reflexivity. Qed.

Lemma Update_calls_mouse_up_moves (input : Input) (dt : float) (c : Camera) :
  Forall (fun call => is_Rotate call = false)
    (Camera.Update_transform_calls (release_mouse input) dt c).
Proof.
  unfold Camera.Update_transform_calls, release_mouse. cbn.
  repeat (apply Forall_app; split);
    match goal with
    | |- Forall _ (if ?b then _ else _) => destruct b
    | |- Forall _ [] => idtac
    end; repeat constructor.
Qed.

Section UpdateFacts.
Context `{DX : DirectXMath}.

Lemma perform_scale (t : Transform) (call : TransformCall) :
  scale3 (perform t call) = scale3 t.
Proof. now destruct call. Qed.

Lemma perform_move_rotation (t : Transform) (call : TransformCall) :
  is_Rotate call = false -> pitchYawRoll (perform t call) = pitchYawRoll t.
Proof. destruct call; [reflexivity | discriminate]. Qed.

Lemma perform_all_scale (calls : list TransformCall) (t : Transform) :
  scale3 (fold_left perform calls t) = scale3 t.
Proof.
  revert t. induction calls as [| call calls IH]; intros t; cbn; [reflexivity |].
  now rewrite IH, perform_scale.
Qed.

Lemma perform_moves_rotation (calls : list TransformCall) :
  Forall (fun call => is_Rotate call = false) calls ->
  forall t, pitchYawRoll (fold_left perform calls t) = pitchYawRoll t.
Proof.
  induction 1 as [| call calls Hc _ IH]; intros t; cbn; [reflexivity |].
  now rewrite IH, perform_move_rotation.
Qed.

(** The transform after an update: the moves of the same input with the
    button up, then the look rotation. *)
Lemma Update_transform_split (input : Input) (dt : float) (c : Camera) :
  transform (Camera.Update input dt c)
  = fold_left perform
      (if MouseLeftDown input then [truncated_rotate input dt c] else [])
      (transform (Camera.Update (release_mouse input) dt c)).
Proof.
  rewrite !Update_transform, Update_calls_split, fold_left_app. reflexivity.
Qed.

(** X1: with no key held and the button up, an update issues no call: the
    camera keeps its transform and only has its view matrix recomputed. *)
Theorem Update_without_input (input : Input) (dt : float) (c : Camera) :
  (forall k, KeyDown input k = false) ->
  MouseLeftDown input = false ->
  Camera.Update_transform_calls input dt c = []
  /\ Camera.Update input dt c = Camera.UpdateViewMatrix c
  /\ transform (Camera.Update input dt c) = transform c.
Proof.
  intros Hk Hm.
  assert (E : Camera.Update_transform_calls input dt c = []).
  { unfold Camera.Update_transform_calls. now rewrite !Hk, Hm. }
  split; [exact E |].
  unfold Camera.Update. rewrite E. cbn [fold_left].
  rewrite set_transform_same. split; reflexivity.
Qed.

(** X2: an update never changes the camera's speeds, field of view, stored
    aspect ratio, stored clip distances or projection matrix, nor the scale
    of its transform. *)
Theorem Update_frame (input : Input) (dt : float) (c : Camera) :
  let c' := Camera.Update input dt c in
  moveSpeed c' = moveSpeed c /\
  mouseLookSpeed c' = mouseLookSpeed c /\
  fov c' = fov c /\
  aspectRatio c' = aspectRatio c /\
  nearP c' = nearP c /\
  farP c' = farP c /\
  projectionMatrix c' = projectionMatrix c /\
  scale3 (transform c') = scale3 (transform c).
Proof.
  cbv zeta. repeat split. rewrite Update_transform. apply perform_all_scale.
Qed.

(** X3: the rotation after an update is the rotation before it when the
    button is up, whatever keys are held; when the button is held it is the
    rotation before plus the truncated look deltas, with 0 added to the
    roll. *)
Theorem Update_rotation (input : Input) (dt : float) (c : Camera) :
  pitchYawRoll (transform (Camera.Update input dt c))
  = if MouseLeftDown input then
      vadd (pitchYawRoll (transform c))
        (mkFloat3
           (fmul (float_of_int (int_of_float
              (fmul (mouseLookSpeed c) (float_of_int (GetMouseYDelta input))))) dt)
           (fmul (float_of_int (int_of_float
              (fmul (mouseLookSpeed c) (float_of_int (GetMouseXDelta input))))) dt)
           f0)
    else pitchYawRoll (transform c).
Proof.
  rewrite Update_transform_split.
  assert (R : pitchYawRoll (transform (Camera.Update (release_mouse input) dt c))
              = pitchYawRoll (transform c)).
  { rewrite Update_transform.
    apply perform_moves_rotation, Update_calls_mouse_up_moves. }
  destruct (MouseLeftDown input); cbn [fold_left]; [| exact R].
  unfold truncated_rotate, perform, TransformOps.Rotate. cbn [pitchYawRoll].
  now rewrite R.
Qed.

(** X4: within one update, movement and look do not interact: the position
    reached is the one reached with the button up (every move uses the
    orientation from before the update), and the rotation reached is the one
    reached with no key held. *)
Theorem Update_move_look_independent (input : Input) (dt : float) (c : Camera) :
  position (transform (Camera.Update input dt c))
  = position (transform (Camera.Update (release_mouse input) dt c))
  /\ pitchYawRoll (transform (Camera.Update input dt c))
     = pitchYawRoll (transform (Camera.Update (release_keys input) dt c)).
Proof.
  split.
  - rewrite Update_transform_split. now destruct (MouseLeftDown input).
  - rewrite (Update_transform (release_keys input)), Update_calls_no_keys.
    rewrite Update_transform_split.
    assert (R : pitchYawRoll (transform (Camera.Update (release_mouse input) dt c))
                = pitchYawRoll (transform c)).
    { rewrite Update_transform.
      apply perform_moves_rotation, Update_calls_mouse_up_moves. }
    destruct (MouseLeftDown input); cbn [fold_left]; [| exact R].
  unfold truncated_rotate, perform, TransformOps.Rotate. cbn [pitchYawRoll].
  now rewrite R.
Qed.
End UpdateFacts.

(* ================================================================== *)
(** ** Camera: look at the sensitivity the scene uses *)

Lemma exact_at_10_checked : all_from exact_at_10 (-4096) (Z.to_nat 8193) = true.
Proof. vm_compute. reflexivity. Qed.

Lemma exact_at_10_range (d : Z) :
  -4096 <= d <= 4096 ->
  float_of_int (int_of_float (fmul (float_of_int 10) (float_of_int d)))
  = fmul (float_of_int 10) (float_of_int d).
Proof.
  intros H. apply float_same_bits_eq.
  apply (all_from_spec exact_at_10 (Z.to_nat 8193) (-4096) d exact_at_10_checked).
  lia.
Qed.

(** X5: for a camera with look sensitivity 10, as every camera of the scene
    has, and cursor deltas of at most 4096 units per axis, the conversion
    to [int] loses nothing: the rotation issued is the float product of
    sensitivity, delta and [dt]. *)
Theorem look_exact_at_sensitivity_10 (input : Input) (dt : float) (c : Camera) :
  mouseLookSpeed c = float_of_int 10 ->
  MouseLeftDown input = true ->
  -4096 <= GetMouseXDelta input <= 4096 ->
  -4096 <= GetMouseYDelta input <= 4096 ->
  List.filter is_Rotate (Camera.Update_transform_calls input dt c)
  = [product_rotate input dt c].
Proof.
  intros Hs Hm Hx Hy.
  unfold Camera.Update_transform_calls. rewrite !filter_Rotate_move, Hm.
  cbn [List.filter is_Rotate]. unfold product_rotate.
  rewrite Hs, (exact_at_10_range _ Hx), (exact_at_10_range _ Hy). reflexivity.
Qed.

(* ================================================================== *)
(** ** Scene: switching, buffer size, present, aspect ratio *)

(** X6: on any [int] a switch yields a value between -2 and 2; from any
    index of at least -1 (and below [INT_MAX]) it yields a valid index, so
    one switch repairs an index that is too large; from a smaller negative
    index, or from [INT_MAX] where the sum wraps, the result is not
    positive. *)
Theorem next_camera_range (v : Z) :
  INT_MIN <= v <= INT_MAX ->
  -2 <= next_camera v <= 2 /\
  if (-1 <=? v) && (v <? INT_MAX)
  then index_ok (next_camera v)
  else next_camera v <= 0.
Proof.
  unfold INT_MIN, INT_MAX, next_camera, wrap_int, index_ok. intros H.
  destruct (Z.eq_dec v (2 ^ 31 - 1)) as [-> | Hne]; [vm_compute; repeat split; congruence |].
  replace ((v + 1 + 2 ^ 31) mod 2 ^ 32 - 2 ^ 31) with (v + 1)
    by (rewrite Z.mod_small; lia).
  destruct (Z.leb_spec (-1) v) as [Hge | Hlt].
  - replace (v <? 2 ^ 31 - 1) with true by (symmetry; apply Z.ltb_lt; lia).
    cbn [andb].
    pose proof (Z.rem_bound_pos (v + 1) 3). lia.
  - cbn [andb].
    pose proof (Z.rem_bound_pos_neg (v + 1) 3). lia.
Qed.

(** X7: on the valid indices a switch is a cycle of length exactly three:
    one or two switches never return to the starting camera, three always
    do. *)
Theorem next_camera_period_3 (v : Z) :
  index_ok v ->
  next_camera v <> v /\
  next_camera (next_camera v) <> v /\
  next_camera (next_camera (next_camera v)) = v.
Proof.
  intros H. destruct (index_ok_cases v H) as [-> | [-> | ->]];
    vm_compute; repeat split; congruence.
Qed.

(** X8: for a size of at most [2^32 - 16] bytes the constant-buffer width is
    the least multiple of 16 that is not below the size. *)
Theorem Init_buffer_size_rounds_up (size k : Z) :
  0 <= size <= 2 ^ 32 - 16 ->
  k mod 16 = 0 -> size <= k ->
  Init_buffer_size size mod 16 = 0 /\
  size <= Init_buffer_size size < size + 16 /\
  Init_buffer_size size <= k.
Proof.
  intros Hs Hk Hle. unfold Init_buffer_size, wrap_uint.
  rewrite (Z.mod_small (size + 15)) by lia.
  pose proof (Z.div_mod (size + 15) 16 ltac:(lia)) as D.
  pose proof (Z.mod_pos_bound (size + 15) 16 ltac:(lia)) as B.
  rewrite (Z.mod_small ((size + 15) / 16 * 16)) by lia.
  split; [apply Z.mod_mul; lia |]. split; [lia |].
  apply Z.mod_divide in Hk; [| lia]. destruct Hk as [q ->]. lia.
Qed.

(** X9: for the fifteen largest [unsigned int] sizes the sum [size + 15]
    wraps around and the width computed is 0. *)
Theorem Init_buffer_size_wraps (size : Z) :
  2 ^ 32 - 15 <= size < 2 ^ 32 ->
  Init_buffer_size size = 0.
Proof.
  intros H. unfold Init_buffer_size, wrap_uint.
  replace ((size + 15) mod 2 ^ 32) with (size + 15 - 2 ^ 32).
  - rewrite Z.div_small by lia. reflexivity.
  - symmetry. rewrite <- (Z.mod_small (size + 15 - 2 ^ 32) (2 ^ 32)) by lia.
    replace (size + 15) with ((size + 15 - 2 ^ 32) + 1 * 2 ^ 32) at 1 by lia.
    rewrite Z.mod_add by lia. reflexivity.
Qed.

(** X10: [Draw] asks [Present] for tearing exactly when vsync is off, the
    device supports tearing and the window is not fullscreen; it does so
    only with sync interval 0, and otherwise presents with interval 1 and
    no flag. *)
Theorem Draw_present_tearing (vsync deviceSupportsTearing isFullscreen : bool) :
  let '(interval, flags) := Draw_present_args vsync deviceSupportsTearing isFullscreen in
  (flags =? DXGI_PRESENT_ALLOW_TEARING)
    = negb vsync && deviceSupportsTearing && negb isFullscreen
  /\ (interval, flags)
     = (if flags =? DXGI_PRESENT_ALLOW_TEARING then (0, DXGI_PRESENT_ALLOW_TEARING) else (1, 0)).
Proof. destruct vsync, deviceSupportsTearing, isFullscreen; split; reflexivity. Qed.

Lemma infinite_over_zero_checked : all_from infinite_over_zero 1 (Z.to_nat 65535) = true.
Proof. vm_compute. reflexivity. Qed.

(** X11: a window of height 0 is not guarded against: for a width from 1
    to 65535 the aspect ratio computed is positive infinity, and for width
    0 it is NaN. *)
Theorem window_aspect_zero_height (g : Game) :
  windowHeight g = 0 ->
  0 <= windowWidth g <= 65535 ->
  Game.window_aspect g = if windowWidth g =? 0 then S754_nan else S754_infinity false.
Proof.
  intros Hh Hw. unfold Game.window_aspect. rewrite Hh.
  destruct (Z.eqb_spec (windowWidth g) 0) as [-> | Hne]; [reflexivity |].
  apply float_same_bits_eq.
  apply (all_from_spec infinite_over_zero (Z.to_nat 65535) 1 _ infinite_over_zero_checked).
  lia.
Qed.

(* ================================================================== *)
(** ** Scene: what the overlay, [Update] and [Draw] touch *)

Lemma same_slot_refl (j : nat) (g : Game) : same_slot j g g.
Proof. now repeat split. Qed.

Lemma same_slot_trans (j : nat) (g1 g2 g3 : Game) :
  same_slot j g1 g2 -> same_slot j g2 g3 -> same_slot j g1 g3.
Proof.
  intros (A1 & B1 & C1 & D1 & E1) (A2 & B2 & C2 & D2 & E2).
  repeat split; congruence.
Qed.

Lemma shape_transform_other (i j : nat) (f : Transform -> Transform) (g g' : Game) :
  i <> j -> shape_transform i f g = Some g' -> same_slot j g g'.
Proof.
  intros Hne H. unfold shape_transform in H.
  destruct (shapes g !! i) as [e |]; [| discriminate]. cbn in H.
  injection H as <-. unfold same_slot; cbn.
  rewrite list_lookup_insert_ne by exact Hne. now repeat split.
Qed.

Lemma shape_mesh_other (i j : nat) (f : Mesh -> Mesh) (g g' : Game) :
  i <> j -> shape_mesh i f g = Some g' -> same_slot j g g'.
Proof.
  intros Hne H. unfold shape_mesh in H.
  destruct (shapes g !! i) as [e |]; [| discriminate]. cbn in H.
  injection H as <-. unfold same_slot; cbn.
  rewrite list_lookup_insert_ne by exact Hne. now repeat split.
Qed.

Section OverlayFacts.
Context `{DX : DirectXMath}.

Lemma edit_translation_other (ui : Overlay) (i j : nat) (g g' : Game) :
  i <> j -> Game.edit_translation ui i g = Some g' -> same_slot j g g'.
Proof.
  intros Hne H. unfold Game.edit_translation in H.
  destruct (DragTranslation ui i) as [v |];
    [| injection H as <-; apply same_slot_refl].
  cbn in H. destruct (_ !! i) as [v' |] in H; [| discriminate]. cbn in H.
  apply (shape_transform_other _ _ _ _ _ Hne) in H.
  eapply same_slot_trans; [| exact H].
  unfold same_slot; cbn. rewrite list_lookup_insert_ne by exact Hne. now repeat split.
Qed.

Lemma edit_rotation_other (ui : Overlay) (i j : nat) (g g' : Game) :
  i <> j -> Game.edit_rotation ui i g = Some g' -> same_slot j g g'.
Proof.
  intros Hne H. unfold Game.edit_rotation in H.
  destruct (DragRotation ui i) as [v |];
    [| injection H as <-; apply same_slot_refl].
  cbn in H. destruct (_ !! i) as [v' |] in H; [| discriminate]. cbn in H.
  apply (shape_transform_other _ _ _ _ _ Hne) in H.
  eapply same_slot_trans; [| exact H].
  unfold same_slot; cbn. rewrite list_lookup_insert_ne by exact Hne. now repeat split.
Qed.

Lemma edit_scale_other (ui : Overlay) (i j : nat) (g g' : Game) :
  i <> j -> Game.edit_scale ui i g = Some g' -> same_slot j g g'.
Proof.
  intros Hne H. unfold Game.edit_scale in H.
  destruct (DragScale ui i) as [v |];
    [| injection H as <-; apply same_slot_refl].
  cbn in H. destruct (_ !! i) as [v' |] in H; [| discriminate]. cbn in H.
  apply (shape_transform_other _ _ _ _ _ Hne) in H.
  eapply same_slot_trans; [| exact H].
  unfold same_slot; cbn. rewrite list_lookup_insert_ne by exact Hne. now repeat split.
Qed.

Lemma edit_color_other (ui : Overlay) (i j : nat) (g g' : Game) :
  i <> j -> Game.edit_color ui i g = Some g' -> same_slot j g g'.
Proof.
  intros Hne H. unfold Game.edit_color in H.
  destruct (ColorEdit3 ui i) as [v |];
    [| injection H as <-; apply same_slot_refl].
  destruct (colorOffset (mirrors g) !! i) as [old |]; [| discriminate]. cbn in H.
  destruct (_ !! i) as [c' |] in H; [| discriminate]. cbn in H.
  apply (shape_mesh_other _ _ _ _ _ Hne) in H.
  eapply same_slot_trans; [| exact H].
  unfold same_slot; cbn. rewrite list_lookup_insert_ne by exact Hne. now repeat split.
Qed.

(** X12: the overlay widgets of shape [i] succeed on arrays of the declared
    sizes and leave every other shape, and every other slot of the mirror
    arrays, as it was. *)
Theorem overlay_shape_touches_one_slot (ui : Overlay) (i j : nat) (g : Game) :
  (i < 5)%nat -> i <> j -> arrays_ok g ->
  exists g', Game.overlay_shape ui i g = Some g' /\ same_slot j g g'.
Proof.
  intros Hi Hne A.
  destruct (overlay_shape_keeps ui i g Hi A) as (g' & E & _).
  exists g'. split; [exact E |].
  unfold Game.overlay_shape in E.
  destruct (ShapeHeader ui i); [| injection E as <-; apply same_slot_refl].
  destruct (Game.edit_translation ui i g) as [g1 |] eqn:E1; [| discriminate]. cbn in E.
  destruct (Game.edit_rotation ui i g1) as [g2 |] eqn:E2; [| discriminate]. cbn in E.
  destruct (Game.edit_scale ui i g2) as [g3 |] eqn:E3; [| discriminate]. cbn in E.
  apply (edit_translation_other _ _ _ _ _ Hne) in E1.
  apply (edit_rotation_other _ _ _ _ _ Hne) in E2.
  apply (edit_scale_other _ _ _ _ _ Hne) in E3.
  apply (edit_color_other _ _ _ _ _ Hne) in E.
  eauto using same_slot_trans.
Qed.

(** X13: when the translation widget of shape [i] reports the value [v],
    [v] is stored in [translation[i]] and passed to [MoveAbsolute]: it is
    added to the position the shape has, not assigned, and the shape's
    rotation, scale and mesh stay as they were. *)
Theorem edit_translation_adds (ui : Overlay) (i : nat) (v : XMFLOAT3) (e : GameEntity) (g : Game) :
  DragTranslation ui i = Some v ->
  shapes g !! i = Some e ->
  (i < length (translation (mirrors g)))%nat ->
  exists g' e',
    Game.edit_translation ui i g = Some g' /\
    translation (mirrors g') !! i = Some v /\
    shapes g' !! i = Some e' /\
    position (entityTransform e') = vadd (position (entityTransform e)) v /\
    pitchYawRoll (entityTransform e') = pitchYawRoll (entityTransform e) /\
    scale3 (entityTransform e') = scale3 (entityTransform e) /\
    entityMesh e' = entityMesh e.
Proof.
  intros Hd He Hi. unfold Game.edit_translation. rewrite Hd. cbn.
  rewrite list_lookup_insert_eq by exact Hi. cbn.
  unfold shape_transform. cbn. rewrite He. cbn.
  eexists _, _. split; [reflexivity |]. cbn.
  split; [now apply list_lookup_insert_eq |].
  split; [apply list_lookup_insert_eq; now apply lookup_lt_Some in He |].
  destruct v. now repeat split.
Qed.

(** X14: with every header collapsed and the 'C' key not pressed, the
    overlay block changes nothing but the log, whatever the arrays hold;
    in particular it does not index the camera array. *)
Theorem overlay_collapsed (ui : Overlay) (input : Input) (g : Game) :
  (forall i, ShapeHeader ui i = false) ->
  CameraSettingsHeader ui = false ->
  KeyPress input (key "C") = false ->
  Game.overlay ui input g = Some (logged [StepOverlay] g).
Proof.
  intros Hs Hc Hk. unfold Game.overlay, for_each, Game.overlay_shape. cbn.
  rewrite !Hs, Hc, Hk. reflexivity.
Qed.
End OverlayFacts.

(* ================================================================== *)
(** ** Scene: cameras across frames and resizes *)

Lemma set_camera_same (g : Game) : set_camera (camera g) g = g.
Proof. now destruct g. Qed.

Lemma log_one (s : Step) (g : Game) : log s g = logged [s] g.
Proof. reflexivity. Qed.

Lemma log_logged (s : Step) (l : list Step) (g : Game) :
  log s (logged l g) = logged (l ++ [s]) g.
Proof. unfold log, logged. cbn. now rewrite <- app_assoc. Qed.

Section SceneFacts.
Context `{DX : DirectXMath}.

Lemma projection_current_fix (a : float) (c : Camera) :
  projection_current a c -> Camera.UpdateProjectionMatrix a c = c.
Proof.
  unfold projection_current. intros H. destruct c; cbn in *.
  unfold Camera.UpdateProjectionMatrix, set_projectionMatrix; cbn.
  f_equal. symmetry. exact H.
Qed.

Lemma map_projection_current (a : float) (l : list Camera) :
  Forall (projection_current a) l -> map (Camera.UpdateProjectionMatrix a) l = l.
Proof.
  induction 1 as [| c l Hcur _ IH]; [reflexivity |].
  cbn [map]. now rewrite (projection_current_fix _ _ Hcur), IH.
Qed.

Lemma Update_camera_current (input : Input) (dt a : float) (c : Camera) :
  projection_current a c ->
  view_current (Camera.Update input dt c) /\ projection_current a (Camera.Update input dt c).
Proof. intros H. split; [reflexivity | exact H]. Qed.

(** X15: [Draw] changes nothing in the scene: on a well-formed state it
    succeeds and returns the same state with its eight steps logged, every
    entity drawn once, in index order, against the camera that is active. *)
Theorem Draw_changes_only_log (deltaTime totalTime : float) (g : Game) :
  wf_game g ->
  exists cam,
    array_at (camera g) (activeCamera g) = Some cam /\
    Game.Draw deltaTime totalTime g = Some (logged (draw_steps cam) g).
Proof.
  intros ((Hs & _) & Hc & Ha).
  destruct (array_at_index_ok _ _ Hc Ha) as [cam Ec].
  destruct (length_5 _ Hs) as (e0 & e1 & e2 & e3 & e4 & Es).
  exists cam. split; [exact Ec |].
  unfold Game.Draw, for_each. cbn.
  repeat first [rewrite Es | rewrite Ec | progress cbn].
  rewrite (log_one StepClear g), !log_logged. reflexivity.
Qed.

(** X16: [Update] advances exactly one camera, the one that is active after
    the switches of this frame have been applied; every other camera of the
    array is left as it was. *)
Theorem Update_moves_only_active_camera
    (ui : Overlay) (input : Input) (deltaTime totalTime : float) (g : Game) (j : nat) :
  wf_game g ->
  j <> Z.to_nat (Nat.iter (switches ui input) next_camera (activeCamera g)) ->
  exists g' c,
    Game.Update ui input deltaTime totalTime g = Some g' /\
    activeCamera g' = Nat.iter (switches ui input) next_camera (activeCamera g) /\
    camera g !! Z.to_nat (activeCamera g') = Some c /\
    camera g' !! Z.to_nat (activeCamera g') = Some (Camera.Update input deltaTime c) /\
    camera g' !! j = camera g !! j.
Proof.
  intros WF Hj.
  destruct (Update_ok ui input deltaTime totalTime g WF) as (g' & c & E & Ec & P).
  destruct P as (_ & _ & _ & C & A & _).
  exists g', c. split; [exact E |]. split; [exact A |].
  unfold array_at in Ec.
  destruct (0 <=? Nat.iter (switches ui input) next_camera (activeCamera g)); [| discriminate].
  rewrite A, C. split; [exact Ec |].
  split.
  - apply list_lookup_insert_eq. now apply lookup_lt_Some in Ec.
  - apply list_lookup_insert_ne. congruence.
Qed.

(** X17: when every camera's projection is already the one for the window's
    aspect ratio, a resize notification changes nothing. *)
Theorem OnResize_noop_when_current (g : Game) :
  length (camera g) = 3%nat ->
  Forall (projection_current (Game.window_aspect g)) (camera g) ->
  Game.OnResize g = Some g.
Proof.
  intros Hc F. rewrite (OnResize_ok g Hc), (map_projection_current _ _ F).
  apply f_equal, set_camera_same.
Qed.

(** X18: the resize handler is idempotent: on three cameras it succeeds,
    and handling the same notification again changes nothing more. *)
Theorem OnResize_idempotent (g : Game) :
  length (camera g) = 3%nat ->
  exists g1, Game.OnResize g = Some g1 /\ Game.OnResize g1 = Some g1.
Proof.
  intros Hc. eexists. split; [apply OnResize_ok, Hc |].
  apply OnResize_noop_when_current.
  - cbn. now rewrite length_map.
  - cbn [camera set_camera]. apply Forall_forall. intros c Hin.
    apply list_elem_of_fmap in Hin. destruct Hin as (c0 & -> & _). reflexivity.
Qed.

(** X19: whatever state and window size [Init] starts from, it leaves five
    shapes and three cameras with the fields of view pi/2, pi/3 and pi/4,
    each camera with a current view matrix and a projection built for the
    window's aspect ratio, so a resize notification that follows without a
    size change is a no-op. *)
Theorem Init_establishes_cameras (tint0 : XMFLOAT4) (g : Game) :
  let g' := Game.Init tint0 g in
  length (shapes g') = 5%nat /\
  length (camera g') = 3%nat /\
  map fov (camera g')
  = [fdiv XM_PI (float_of_int 2); fdiv XM_PI (float_of_int 3); fdiv XM_PI (float_of_int 4)] /\
  cameras_current g' /\
  Game.OnResize g' = Some g'.
Proof.
  cbv zeta.
  assert (C : cameras_current (Game.Init tint0 g)).
  { unfold cameras_current. repeat constructor. }
  split; [reflexivity |]. split; [reflexivity |]. split; [reflexivity |].
  split; [exact C |].
  apply OnResize_noop_when_current; [reflexivity |].
  eapply Forall_impl; [exact C |]. now intros c [_ H].
Qed.
End SceneFacts.

Section RunFacts.
Context `{DX : DirectXMath}.

Lemma frame_phase (ui : Overlay) (input : Input) (deltaTime totalTime : float) (g : Game) :
  wf_game g ->
  exists g' c cam,
    Game.frame ui input deltaTime totalTime g = Some g' /\
    camera g !! Z.to_nat (Nat.iter (switches ui input) next_camera (activeCamera g)) = Some c /\
    wf_game g' /\
    phase g g' (Nat.iter (switches ui input) next_camera (activeCamera g))
      (<[Z.to_nat (Nat.iter (switches ui input) next_camera (activeCamera g))
         := Camera.Update input deltaTime c]> (camera g))
      (update_steps (Nat.iter (switches ui input) next_camera (activeCamera g))
       ++ draw_steps cam).
Proof.
  intros WF. pose proof WF as (A & Hc & Ha).
  destruct (Update_ok ui input deltaTime totalTime g WF) as (g1 & c & E1 & Ec & P1).
  assert (Ia : index_ok (Nat.iter (switches ui input) next_camera (activeCamera g)))
    by now apply iter_next_camera_index_ok.
  assert (WF1 : wf_game g1).
  { apply (wf_game_phase _ _ _ _ _ P1 WF); [now rewrite length_insert | exact Ia]. }
  destruct (Draw_ok deltaTime totalTime g1 WF1) as (g' & cam & E2 & _ & P2).
  pose proof P1 as (_ & _ & _ & C1 & A1 & _).
  pose proof (phase_trans _ _ _ _ _ _ _ _ _ P1 P2) as P. rewrite C1, A1 in P.
  exists g', c, cam. unfold Game.frame. rewrite E1. cbn [mbind option_bind].
  split; [exact E2 |]. split.
  - unfold array_at in Ec. destruct (0 <=? _) in Ec; [exact Ec | discriminate].
  - split; [| exact P].
    apply (wf_game_phase _ _ _ _ _ P2 WF1); apply WF1.
Qed.

Lemma window_aspect_phase (g g' : Game) (a : Z) (cams : list Camera) (steps : list Step) :
  phase g g' a cams steps -> Game.window_aspect g' = Game.window_aspect g.
Proof. intros (_ & W & H & _). unfold Game.window_aspect. now rewrite W, H. Qed.

(** X20: any number of frames from a well-formed scene whose cameras are
    current runs without an out-of-bounds access and ends in a well-formed
    scene whose cameras are all current again, the inactive ones included;
    the window size and every camera's field of view are as at the start,
    and exactly one present is logged per frame. *)
Theorem run_keeps_scene (frames : list FrameInput) (g : Game) :
  wf_game g ->
  cameras_current g ->
  exists g',
    run frames g = Some g' /\
    wf_game g' /\
    cameras_current g' /\
    windowWidth g' = windowWidth g /\
    windowHeight g' = windowHeight g /\
    map fov (camera g') = map fov (camera g) /\
    length (List.filter is_StepPresent (frameLog g'))
    = (length (List.filter is_StepPresent (frameLog g)) + length frames)%nat.
Proof.
  revert g. induction frames as [| f frames IH]; intros g WF Cur.
  - exists g. cbn. repeat split; try assumption; try apply WF. lia.
  - destruct (frame_phase (frame_ui f) (frame_input f) (frame_deltaTime f)
                (frame_totalTime f) g WF) as (g1 & c & cam & E & Ec & WF1 & P).
    pose proof (window_aspect_phase _ _ _ _ _ P) as Asp.
    destruct P as (_ & W & H & C & _ & L).
    assert (Cur1 : cameras_current g1).
    { unfold cameras_current in *. rewrite C, Asp.
      apply Forall_insert; [exact Cur |].
      apply Update_camera_current.
      exact (proj2 (Forall_lookup_1 _ _ _ _ Cur Ec)). }
    destruct (IH g1 WF1 Cur1) as (g' & E' & WF' & Cur' & W' & H' & F' & N').
    exists g'. cbn [run]. rewrite E. cbn [mbind option_bind].
    split; [exact E' |]. split; [exact WF' |]. split; [exact Cur' |].
    split; [congruence |]. split; [congruence |]. split.
    + rewrite F', C, list_fmap_insert. apply list_insert_id.
      rewrite list_lookup_fmap, Ec. reflexivity.
    + rewrite N', L, List.filter_app, length_app. cbn [length]. cbn. lia.
Qed.
End RunFacts.

(* ================================================================== *)
(** ** Camera: look products below one *)

Lemma int_of_float_below_one (x : float) : below_one x = true -> int_of_float x = 0.
Proof.
  destruct x as [s | s | | s m e]; cbn [below_one int_of_float]; try discriminate;
    [reflexivity |].
  intros H. apply andb_prop in H as [He Hm].
  apply Z.ltb_lt in He. apply Z.ltb_lt in Hm.
  replace (0 <=? e) with false by (symmetry; apply Z.leb_gt; exact He).
  rewrite Z.div_small by lia.
  now destruct s.
Qed.

(** X21: while the button is held, a cursor delta whose product with the
    look sensitivity has magnitude below one on both axes is lost in the
    conversion to [int]: the one rotation issued has the angles [0 * dt]. *)
Theorem look_below_one_dropped (input : Input) (dt : float) (c : Camera) :
  MouseLeftDown input = true ->
  below_one (fmul (mouseLookSpeed c) (float_of_int (GetMouseXDelta input))) = true ->
  below_one (fmul (mouseLookSpeed c) (float_of_int (GetMouseYDelta input))) = true ->
  List.filter is_Rotate (Camera.Update_transform_calls input dt c)
  = [CallRotate (fmul f0 dt) (fmul f0 dt) f0].
Proof.
  intros Hm Hx Hy.
  unfold Camera.Update_transform_calls. rewrite !filter_Rotate_move, Hm.
  cbn [List.filter is_Rotate].
  rewrite (int_of_float_below_one _ Hx), (int_of_float_below_one _ Hy). reflexivity.
Qed.

(* ================================================================== *)
(** ** The further properties at explicit inputs *)

#[local] Existing Instance recordingDX.

Lemma Update_without_input_witness :
  Camera.Update idle_input f0_01 half_speed_camera
  = Camera.UpdateViewMatrix half_speed_camera.
Proof.
  refine (proj1 (proj2 (Update_without_input idle_input f0_01
                          half_speed_camera _ _))); reflexivity.
Defined.

Lemma look_exact_at_sensitivity_10_witness :
  let c := Camera.new f0 f0 f0 (float_of_int 5) (float_of_int 10) f1 f1 in
  List.filter is_Rotate (Camera.Update_transform_calls look_input f0_01 c)
  = [product_rotate look_input f0_01 c].
Proof.
  cbv zeta. apply look_exact_at_sensitivity_10; [reflexivity | reflexivity | cbn; lia | cbn; lia].
Defined.

Lemma look_below_one_dropped_witness :
  List.filter is_Rotate (Camera.Update_transform_calls look_input f1 half_speed_camera)
  = [CallRotate (fmul f0 f1) (fmul f0 f1) f0].
Proof. apply look_below_one_dropped; reflexivity. Defined.

Lemma next_camera_range_witness : -2 <= next_camera 7 <= 2 /\ index_ok (next_camera 7).
Proof.
  refine (next_camera_range 7 _). unfold INT_MIN, INT_MAX. lia.
Defined.

Lemma next_camera_period_3_witness :
  next_camera (next_camera (next_camera 1)) = 1.
Proof.
  refine (proj2 (proj2 (next_camera_period_3 1 _))). unfold index_ok. lia.
Defined.

Lemma Init_buffer_size_rounds_up_witness :
  Init_buffer_size 100 mod 16 = 0 /\
  100 <= Init_buffer_size 100 < 100 + 16 /\
  Init_buffer_size 100 <= 112.
Proof. apply Init_buffer_size_rounds_up; [lia | reflexivity | lia]. Defined.

Lemma Init_buffer_size_wraps_witness : Init_buffer_size (2 ^ 32 - 1) = 0.
Proof. apply Init_buffer_size_wraps. lia. Defined.

Lemma window_aspect_zero_height_witness :
  Game.window_aspect flat_window_game = S754_infinity false.
Proof.
  refine (window_aspect_zero_height flat_window_game _ _);
    [reflexivity | cbn; lia].
Defined.

Lemma overlay_shape_touches_one_slot_witness :
  exists g', Game.overlay_shape (dragging_overlay (mkFloat3 f1 f1 f0)) 0 started_game
             = Some g' /\ same_slot 1 started_game g'.
Proof.
  apply overlay_shape_touches_one_slot; [lia | lia | exact (proj1 started_game_wf)].
Defined.

Lemma edit_translation_adds_witness :
  exists g', Game.edit_translation (dragging_overlay (mkFloat3 f1 f1 f0)) 0 started_game
             = Some g'.
Proof.
  destruct (edit_translation_adds (dragging_overlay (mkFloat3 f1 f1 f0)) 0%nat
              (mkFloat3 f1 f1 f0) (mkEntity TransformOps.new (mkMesh 3 white)) started_game)
    as (g' & _ & E & _); [reflexivity | reflexivity | cbn; lia |].
  exists g'. exact E.
Defined.

Lemma overlay_collapsed_witness :
  Game.overlay idle_overlay idle_input started_game
  = Some (logged [StepOverlay] started_game).
Proof. apply overlay_collapsed; reflexivity. Defined.

Lemma Draw_changes_only_log_witness :
  exists cam, Game.Draw f0_01 f0_01 started_game
              = Some (logged (draw_steps cam) started_game).
Proof.
  destruct (Draw_changes_only_log f0_01 f0_01 started_game started_game_wf)
    as (cam & _ & E).
  exists cam. exact E.
Defined.

Lemma Update_moves_only_active_camera_witness :
  exists g', Game.Update idle_overlay idle_input f0_01 f0_01 started_game = Some g'
             /\ camera g' !! 1%nat = camera started_game !! 1%nat.
Proof.
  destruct (Update_moves_only_active_camera idle_overlay idle_input f0_01 f0_01
              started_game 1%nat started_game_wf) as (g' & c & E & _ & _ & _ & K).
  - cbn. lia.
  - exists g'. split; [exact E | exact K].
Defined.

Lemma started_game_current : cameras_current started_game.
Proof. unfold cameras_current. repeat constructor. Defined.

Lemma OnResize_noop_when_current_witness :
  Game.OnResize started_game = Some started_game.
Proof.
  apply OnResize_noop_when_current; [reflexivity |].
  unfold started_game. repeat constructor.
Defined.

Lemma OnResize_idempotent_witness :
  exists g1, Game.OnResize started_game = Some g1
             /\ Game.OnResize g1 = Some g1.
Proof. apply OnResize_idempotent. reflexivity. Defined.

Lemma run_keeps_scene_witness :
  exists g',
    run
      [mkFrameInput idle_overlay look_input f0_01 f0_01;
       mkFrameInput idle_overlay idle_input f0_01 f0_01] started_game = Some g'
    /\ wf_game g'.
Proof.
  destruct (run_keeps_scene
              [mkFrameInput idle_overlay look_input f0_01 f0_01;
               mkFrameInput idle_overlay idle_input f0_01 f0_01]
              started_game started_game_wf started_game_current) as (g' & E & W & _).
  exists g'. split; [exact E | exact W].
Defined.
